(** * Sybil-Defender: the batch pipeline of [src/agent.py] and the
    [f04874bb37a6] schema migration

    The development follows the two source files.

    - [src/agent.py]: [handle_transaction], [handle_transaction_async] and
      [process_transactions] are embedded as programs of a state-and-exception
      monad over a [World] (the module globals, the database, the four
      GraphML files and the console).  Functions that the file imports from
      other modules of the repository are fields of the record
      [Collaborators]; each one is given the part of the state that its
      arguments and its name give it access to.
    - [alembic/versions/f04874bb37a6_changed_id_to_integer.py]: [upgrade] and
      [downgrade] are embedded as programs that hand their directives to a
      database, which accepts or refuses each of them.

    Python values are modelled by [PyValue]; [int] is [Z]. *)

From stdpp Require Import base option list strings pretty.

Set Warnings "-register-all".

Open Scope string_scope.
Open Scope Z_scope.

(** ** Python values held in attribute dictionaries *)

(** A [float] is carried by its [repr] text: no arithmetic on floats happens
    in [agent.py].  A [str] is a sequence of code points below 256, one per
    character.  [VDict] is a [dict] with [str] keys, in insertion order.
    [VType] is a class object (an instance of [type] or of a metaclass),
    carried by the name of its metaclass and by the text that [str] gives
    for it, such as [<class 'decimal.Decimal'>] or [<enum 'Color'>];
    [VObject] is an instance of any other class (a [Decimal], a [set], an
    enum member, a [datetime]), named by its class. *)
Inductive PyValue : Type :=
| VNone
| VBool (b : bool)
| VInt (z : Z)
| VFloat (repr : string)
| VStr (s : string)
| VList (l : list PyValue)
| VTuple (l : list PyValue)
| VDict (d : list (string * PyValue))
| VType (metaclass : string) (text : string)
| VObject (cls : string).

(** [isinstance(value, type)] and [isinstance(value, list)]. *)
Definition isinstance_type (v : PyValue) : bool :=
  match v with VType _ _ => true | _ => false end.

Definition isinstance_list (v : PyValue) : bool :=
  match v with VList _ => true | _ => false end.

(** The values a GraphML attribute may hold: [int], [float], [bool], [str]. *)
Definition is_scalar (v : PyValue) : bool :=
  match v with
  | VBool _ | VInt _ | VFloat _ | VStr _ => true
  | _ => false
  end.

(** The name of the class of a value, as [type(v).__name__]. *)
Definition class_name (v : PyValue) : string :=
  match v with
  | VNone => "NoneType"
  | VBool _ => "bool"
  | VInt _ => "int"
  | VFloat _ => "float"
  | VStr _ => "str"
  | VList _ => "list"
  | VTuple _ => "tuple"
  | VDict _ => "dict"
  | VType m _ => m
  | VObject c => c
  end.

(** ** Exceptions and results *)

Inductive exn : Type :=
| TypeError (msg : string)
| Error (msg : string).

Inductive result (A : Type) : Type :=
| Ok (a : A)
| Raise (e : exn).
Arguments Ok {A} a.
Arguments Raise {A} e.

#[global] Instance result_ret : MRet result := λ A a, Ok a.
#[global] Instance result_bind : MBind result := λ A B f r,
  match r with
  | Ok a => f a
  | Raise e => Raise e
  end.

Definition is_ok {A} (r : result A) : bool :=
  match r with Ok _ => true | Raise _ => false end.

(** [mapM] for [result]: the first exception, in list order, is raised. *)
Fixpoint result_mapM {A B} (f : A → result B) (l : list A) : result (list B) :=
  match l with
  | [] => Ok []
  | x :: l' => y ← f x; ys ← result_mapM f l'; Ok (y :: ys)
  end.

(** ** [str] of a class and [json.dumps] *)

Definition quote : string := String (Ascii.ascii_of_nat 34) EmptyString.
Definition backslash : string := String (Ascii.ascii_of_nat 92) EmptyString.

(** [str(cls)] for a class object: the text the class is carried by. *)
Definition str_of_type (cls : PyValue) : string :=
  match cls with
  | VType _ text => text
  | _ => EmptyString
  end.

Definition hex_digit (n : nat) : string :=
  match n with
  | 0 => "0" | 1 => "1" | 2 => "2" | 3 => "3" | 4 => "4" | 5 => "5"
  | 6 => "6" | 7 => "7" | 8 => "8" | 9 => "9" | 10 => "a" | 11 => "b"
  | 12 => "c" | 13 => "d" | 14 => "e" | _ => "f"
  end%nat.

(** One character of a JSON string, with [ensure_ascii=True]: the quote and
    the backslash are escaped, the five short escapes are used, every other
    code point outside [0x20..0x7e] becomes a four-digit escape. *)
Definition json_escape_char (c : Ascii.ascii) : string :=
  let n := Ascii.nat_of_ascii c in
  if Nat.eqb n 34 then backslash ++ quote
  else if Nat.eqb n 92 then backslash ++ backslash
  else if Nat.eqb n 10 then backslash ++ "n"
  else if Nat.eqb n 13 then backslash ++ "r"
  else if Nat.eqb n 9 then backslash ++ "t"
  else if Nat.eqb n 8 then backslash ++ "b"
  else if Nat.eqb n 12 then backslash ++ "f"
  else if (Nat.leb 32 n && Nat.leb n 126)%bool then String c EmptyString
  else backslash ++ "u00" ++ hex_digit (n / 16) ++ hex_digit (n mod 16).

Fixpoint json_escape (s : string) : string :=
  match s with
  | EmptyString => EmptyString
  | String c s' => json_escape_char c ++ json_escape s'
  end.

Definition json_string (s : string) : string := quote ++ json_escape s ++ quote.

(** [float.__repr__] except for the three non-finite values. *)
Definition json_float (repr : string) : string :=
  if String.eqb repr "nan" then "NaN"
  else if String.eqb repr "inf" then "Infinity"
  else if String.eqb repr "-inf" then "-Infinity"
  else repr.

Definition not_serializable (v : PyValue) : exn :=
  TypeError ("Object of type " ++ class_name v ++ " is not JSON serializable").

(** [json.dumps(v)] with the default separators.  A value of a class the
    encoder does not know raises [TypeError]. *)
Fixpoint json_dumps (v : PyValue) : result string :=
  match v with
  | VNone => Ok "null"
  | VBool true => Ok "true"
  | VBool false => Ok "false"
  | VInt z => Ok (pretty z)
  | VFloat r => Ok (json_float r)
  | VStr s => Ok (json_string s)
  | VList l | VTuple l =>
      items ← (fix items (l : list PyValue) : result (list string) :=
                 match l with
                 | [] => Ok []
                 | x :: l' => s ← json_dumps x; ss ← items l'; Ok (s :: ss)
                 end) l;
      Ok ("[" ++ String.concat ", " items ++ "]")
  | VDict d =>
      items ← (fix items (d : list (string * PyValue)) : result (list string) :=
                 match d with
                 | [] => Ok []
                 | (k, x) :: d' =>
                     s ← json_dumps x; ss ← items d';
                     Ok ((json_string k ++ ": " ++ s) :: ss)
                 end) d;
      Ok ("{" ++ String.concat ", " items ++ "}")
  | VType _ _ | VObject _ => Raise (not_serializable v)
  end.

(** ** Graphs *)

(** A networkx graph: the node table and the edge table, each in the order
    in which networkx enumerates it, every entry with its attribute
    dictionary.  Graph-level attributes are not used by [agent.py] and are
    left out.  Whether a graph is a [Graph] or a [DiGraph] is not recorded:
    the one operation of [agent.py] that depends on it, [edge_subgraph], is
    applied to [globals.G1], the directed transaction graph. *)
Definition Node := string.
Definition Edge := (Node * Node)%type.
Definition Attrs := list (string * PyValue).

Record Graph : Type := mkGraph {
  nodes : list (Node * Attrs);
  edges : list (Edge * Attrs)
}.

(** [nx.Graph()] *)
Definition empty_graph : Graph := mkGraph [] [].

Definition number_of_nodes (g : Graph) : Z := Z.of_nat (length (nodes g)).
Definition number_of_edges (g : Graph) : Z := Z.of_nat (length (edges g)).

Definition node_keys (g : Graph) : list Node := (nodes g).*1.
Definition edge_keys (g : Graph) : list Edge := (edges g).*1.

Definition endpoints (es : list Edge) : list Node :=
  flat_map (λ e, [e.1; e.2]) es.

(** The entries of a table in the order of their ranks; entries of equal
    rank keep the order they have. *)
Fixpoint enumerate_insert {K} (rank : K → nat) (x : K * Attrs)
    (l : list (K * Attrs)) : list (K * Attrs) :=
  match l with
  | [] => [x]
  | y :: l' =>
      if (rank x.1 <=? rank y.1)%nat then x :: l
      else y :: enumerate_insert rank x l'
  end.

Definition enumerate {K} (rank : K → nat) (l : list (K * Attrs))
    : list (K * Attrs) :=
  foldr (enumerate_insert rank) [] l.

(** [nx.DiGraph(G.edge_subgraph(es))] for a directed [G]: the nodes of [G]
    that are an endpoint of a listed edge and the edges of [G] that are
    listed, copied with their attributes into a new graph.  The copy is
    filled in the order in which networkx enumerates the view.  That is
    not always the order of [G]: a selection smaller than half of [G] is
    enumerated in the iteration order of a Python [set], which depends on
    the hashes of the node names.  The order is therefore given from
    outside, by a rank for the nodes and a rank for the edges. *)
Definition edge_subgraph_digraph (node_rank : Node → nat)
    (edge_rank : Edge → nat) (g : Graph) (es : list Edge) : Graph :=
  mkGraph
    (enumerate node_rank (filter (λ n, n.1 ∈ endpoints es) (nodes g)))
    (enumerate edge_rank (filter (λ e, e.1 ∈ es) (edges g))).

(** The attribute values of a graph, nodes first. *)
Definition attribute_values (g : Graph) : list PyValue :=
  (flat_map (λ n, n.2.*2) (nodes g) ++ flat_map (λ e, e.2.*2) (edges g))%list.

(** Whether every node and edge attribute is a scalar. *)
Definition all_scalar (g : Graph) : bool :=
  forallb is_scalar (attribute_values g).

(** ** Lines 141-153: making the final graph's attributes writable *)

(** The body of both inner loops:
    [if isinstance(value, type): data[key] = str(value)
     elif isinstance(value, list): data[key] = json.dumps(value)]. *)
Definition convert_value (v : PyValue) : result PyValue :=
  match v with
  | VType _ _ => Ok (VStr (str_of_type v))
  | VList l => s ← json_dumps (VList l); Ok (VStr s)
  | _ => Ok v
  end.

(** [for key, value in list(data.items()): ...] on one attribute dictionary. *)
Definition convert_data (data : Attrs) : result Attrs :=
  result_mapM (λ kv, v ← convert_value kv.2; Ok (kv.1, v)) data.

(** The two outer loops, over [final_graph.nodes(data=True)] and then over
    [final_graph.edges(data=True)]. *)
Definition convert_attributes (g : Graph) : result Graph :=
  ns ← result_mapM (λ n, d ← convert_data n.2; Ok (n.1, d)) (nodes g);
  es ← result_mapM (λ e, d ← convert_data e.2; Ok (e.1, d)) (edges g);
  Ok (mkGraph ns es).

(** What the two loops do to a value, to an attribute dictionary and to a
    graph, as relations between before and after. *)
Definition value_converted (v v' : PyValue) : Prop :=
  match v with
  | VType _ _ => v' = VStr (str_of_type v)
  | VList l => ∃ s, json_dumps (VList l) = Ok s ∧ v' = VStr s
  | _ => v' = v
  end.

Definition attrs_converted (d d' : Attrs) : Prop :=
  Forall2 (λ kv kv', kv'.1 = kv.1 ∧ value_converted kv.2 kv'.2) d d'.

Definition graph_converted (g g' : Graph) : Prop :=
  Forall2 (λ n n', n'.1 = n.1 ∧ attrs_converted n.2 n'.2) (nodes g) (nodes g') ∧
  Forall2 (λ e e', e'.1 = e.1 ∧ attrs_converted e.2 e'.2) (edges g) (edges g').

(** The values the loops pass over: neither a class nor a list. *)
Definition plain (v : PyValue) : bool :=
  negb (isinstance_type v || isinstance_list v).

(** The values the loops turn into a scalar or leave a scalar. *)
Definition convertible (v : PyValue) : bool :=
  is_scalar v || isinstance_type v || isinstance_list v.

(** ** Rows of the database *)

(** Modelled from the spec: the [Transfer] model of [src.database.models],
    with the fields the data model lists. *)
Record Transfer : Type := mkTransfer {
  transfer_id : Z;
  sender : Node;
  receiver : Node;
  asset : string;
  amount : Z;
  block_number : Z;
  timestamp : Z;
  processed : bool
}.

(** Modelled from the spec: a row of the contract-transaction log. *)
Record ContractTransaction : Type := mkContractTransaction {
  ctx_id : Z;
  ctx_sender : Node;
  ctx_contract : Node;
  ctx_method : string;
  ctx_block_number : Z;
  ctx_timestamp : Z;
  ctx_processed : bool
}.

(** Modelled from the spec: the two durable cluster tables. *)
Record EOA : Type := mkEOA {
  eoa_id : Z;
  eoa_address : Node;
  eoa_cluster : option Z
}.

Record SuspiciousCluster : Type := mkSuspiciousCluster {
  cluster_id : Z;
  cluster_members : string;
  cluster_metadata : string
}.

Record ClusterTables : Type := mkClusterTables {
  eoas : list EOA;
  suspicious_clusters : list SuspiciousCluster
}.

Record DB : Type := mkDB {
  transfers : list Transfer;
  contract_transactions : list ContractTransaction;
  clusters : ClusterTables
}.

(** Modelled from the spec: a finding and the event handed to the agent. *)
Record Finding : Type := mkFinding {
  finding_cluster : Z;
  finding_members : list Node;
  finding_evidence : string;
  finding_severity : string
}.

Record TransactionEvent : Type := mkTransactionEvent {
  ev_hash : string;
  ev_from : Node;
  ev_to : Node;
  ev_asset : string;
  ev_value : Z;
  ev_block_number : Z;
  ev_timestamp : Z;
  ev_method : option string
}.

#[global] Instance Transfer_eq_dec : EqDecision Transfer.
Proof. solve_decision. Defined.

Definition set_processed (t : Transfer) : Transfer :=
  mkTransfer (transfer_id t) (sender t) (receiver t) (asset t) (amount t)
    (block_number t) (timestamp t) true.

(** [select(Transfer).where(Transfer.processed == False)] *)
Definition unprocessed (ts : list Transfer) : list Transfer :=
  filter (λ t, processed t = false) ts.

(** The [UPDATE] that the commit of line 161 issues for the rows whose
    [processed] attribute was set at lines 159-160: rows are addressed by
    primary key. *)
Definition mark_processed (batch ts : list Transfer) : list Transfer :=
  (λ t, if bool_decide (transfer_id t ∈ transfer_id <$> batch)
        then set_processed t else t) <$> ts.

Definition with_transfers (ts : list Transfer) (d : DB) : DB :=
  mkDB ts (contract_transactions d) (clusters d).
Definition with_contract_transactions (cs : list ContractTransaction) (d : DB) : DB :=
  mkDB (transfers d) cs (clusters d).
Definition with_clusters (c : ClusterTables) (d : DB) : DB :=
  mkDB (transfers d) (contract_transactions d) c.

(** The edge a transfer lies on. *)
Definition transfer_edge (t : Transfer) : Edge := (sender t, receiver t).

(** ** The console *)

Inductive Printed : Type :=
| Line (s : string)
| LineInt (s : string) (z : Z)
| LineExn (s : string) (e : exn).

(** [analyze_communities(...) or []]: a graph without nodes is falsy. *)
Inductive Analyzed : Type :=
| AnalyzedGraph (g : Graph)
| EmptyList.

Definition or_empty_list (r : option Graph) : Analyzed :=
  match r with
  | Some g => match nodes g with [] => EmptyList | _ => AnalyzedGraph g end
  | None => EmptyList
  end.

(** Modelled from the spec: the CommunityMerger.  Matched communities are
    merged by union of nodes and edges and unmatched new communities are
    added as they are, so once a batch has been folded into the durable
    community graph, every node and every edge of the batch's communities
    is in that graph. *)
Definition folded_into (batch durable : Graph) : Prop :=
  (∀ n, n ∈ node_keys batch → n ∈ node_keys durable) ∧
  (∀ e, e ∈ edge_keys batch → e ∈ edge_keys durable).

(** ** The world of the agent *)

Section Agent.

(** The text of a GraphML file and the partition table that [run_algorithm]
    hands to [process_partitions] are produced and consumed outside
    [agent.py]. *)
Context {GraphML Partitions : Type}.

(** The module [src.utils.globals], the database as committed, the four
    files under [src/graph/graphs/] and the lines printed so far. *)
Record World : Type := mkWorld {
  is_graph_initialized : bool;
  transaction_counter : Z;
  is_initial_batch : bool;
  G1 : Graph;
  G2 : Graph;
  global_added_edges : list Edge;
  db : DB;
  initial_global_graph_file : option GraphML;
  updated_subgraph_file : option GraphML;
  merged_G2_graph_file : option GraphML;
  final_graph_file : option GraphML;
  stdout : list Printed
}.

Definition set_is_graph_initialized (b : bool) (w : World) : World :=
  mkWorld b (transaction_counter w) (is_initial_batch w) (G1 w) (G2 w)
    (global_added_edges w) (db w) (initial_global_graph_file w)
    (updated_subgraph_file w) (merged_G2_graph_file w) (final_graph_file w)
    (stdout w).
Definition set_transaction_counter (c : Z) (w : World) : World :=
  mkWorld (is_graph_initialized w) c (is_initial_batch w) (G1 w) (G2 w)
    (global_added_edges w) (db w) (initial_global_graph_file w)
    (updated_subgraph_file w) (merged_G2_graph_file w) (final_graph_file w)
    (stdout w).
Definition set_is_initial_batch (b : bool) (w : World) : World :=
  mkWorld (is_graph_initialized w) (transaction_counter w) b (G1 w) (G2 w)
    (global_added_edges w) (db w) (initial_global_graph_file w)
    (updated_subgraph_file w) (merged_G2_graph_file w) (final_graph_file w)
    (stdout w).
Definition set_G1 (g : Graph) (w : World) : World :=
  mkWorld (is_graph_initialized w) (transaction_counter w) (is_initial_batch w)
    g (G2 w) (global_added_edges w) (db w) (initial_global_graph_file w)
    (updated_subgraph_file w) (merged_G2_graph_file w) (final_graph_file w)
    (stdout w).
Definition set_global_added_edges (es : list Edge) (w : World) : World :=
  mkWorld (is_graph_initialized w) (transaction_counter w) (is_initial_batch w)
    (G1 w) (G2 w) es (db w) (initial_global_graph_file w)
    (updated_subgraph_file w) (merged_G2_graph_file w) (final_graph_file w)
    (stdout w).
Definition set_db (d : DB) (w : World) : World :=
  mkWorld (is_graph_initialized w) (transaction_counter w) (is_initial_batch w)
    (G1 w) (G2 w) (global_added_edges w) d (initial_global_graph_file w)
    (updated_subgraph_file w) (merged_G2_graph_file w) (final_graph_file w)
    (stdout w).
Definition set_initial_global_graph_file (f : option GraphML) (w : World) : World :=
  mkWorld (is_graph_initialized w) (transaction_counter w) (is_initial_batch w)
    (G1 w) (G2 w) (global_added_edges w) (db w) f
    (updated_subgraph_file w) (merged_G2_graph_file w) (final_graph_file w)
    (stdout w).
Definition set_updated_subgraph_file (f : option GraphML) (w : World) : World :=
  mkWorld (is_graph_initialized w) (transaction_counter w) (is_initial_batch w)
    (G1 w) (G2 w) (global_added_edges w) (db w) (initial_global_graph_file w)
    f (merged_G2_graph_file w) (final_graph_file w) (stdout w).
Definition set_merged_G2_graph_file (f : option GraphML) (w : World) : World :=
  mkWorld (is_graph_initialized w) (transaction_counter w) (is_initial_batch w)
    (G1 w) (G2 w) (global_added_edges w) (db w) (initial_global_graph_file w)
    (updated_subgraph_file w) f (final_graph_file w) (stdout w).
Definition set_final_graph_file (f : option GraphML) (w : World) : World :=
  mkWorld (is_graph_initialized w) (transaction_counter w) (is_initial_batch w)
    (G1 w) (G2 w) (global_added_edges w) (db w) (initial_global_graph_file w)
    (updated_subgraph_file w) (merged_G2_graph_file w) f (stdout w).
Definition set_stdout (out : list Printed) (w : World) : World :=
  mkWorld (is_graph_initialized w) (transaction_counter w) (is_initial_batch w)
    (G1 w) (G2 w) (global_added_edges w) (db w) (initial_global_graph_file w)
    (updated_subgraph_file w) (merged_G2_graph_file w) (final_graph_file w)
    out.

(** ** The monad: state that survives an exception *)

(** A program maps the world to the world it leaves behind and either a
    value or the exception it raised.  What was assigned before the
    exception stays assigned. *)
Definition M (A : Type) : Type := World → World * result A.

#[global] Instance M_ret : MRet M := λ A a w, (w, Ok a).
#[global] Instance M_bind : MBind M := λ A B k m w,
  match m w with
  | (w', Ok a) => k a w'
  | (w', Raise e) => (w', Raise e)
  end.

Definition gets {A} (f : World → A) : M A := λ w, (w, Ok (f w)).
Definition modify (f : World → World) : M unit := λ w, (f w, Ok tt).
Definition lift {A} (r : result A) : M A := λ w, (w, r).

(** [try: body except Exception as e: handler(e)] *)
Definition try_except {A} (body : M A) (handler : exn → M A) : M A := λ w,
  match body w with
  | (w', Ok a) => (w', Ok a)
  | (w', Raise e) => handler e w'
  end.

(** A call that reads and writes one component of the world. *)
Definition on {S A} (get : World → S) (set : S → World → World)
    (f : S → S * result A) : M A := λ w,
  let '(s, r) := f (get w) in (set s w, r).

Definition print (s : string) : M unit :=
  modify (λ w, set_stdout (stdout w ++ [Line s]) w).
Definition print_int (s : string) (z : Z) : M unit :=
  modify (λ w, set_stdout (stdout w ++ [LineInt s z]) w).
Definition print_exn (s : string) (e : exn) : M unit :=
  modify (λ w, set_stdout (stdout w ++ [LineExn s e]) w).

Definition len {A} (l : list A) : Z := Z.of_nat (length l).

(** ** What [agent.py] imports *)

(** The imported functions and the constant [N].  A function that mutates
    a global or writes a table or a file returns the new value of what it
    writes together with its outcome, so that a call that raises may still
    leave a change behind.  [commit_error] is the verdict of the database on
    a pending state: [Some e] when [session.commit()] raises [e].
    [subgraph_node_rank] and [subgraph_edge_rank] give the order in which
    networkx enumerates the nodes and the edges of [G.edge_subgraph(es)]. *)
Record Collaborators : Type := mkCollaborators {
  N : Z;
  initialize_global_graph : DB → Graph → Graph * result unit;
  apply_initial_heuristics : DB → TransactionEvent → result bool;
  add_transaction_to_db : TransactionEvent → DB → result DB;
  commit_error : DB → option exn;
  add_transactions_to_graph : list Transfer → Graph → Graph * result (list Edge);
  adjust_edge_weights_and_variances : list Transfer → Graph → Graph * result unit;
  convert_decimal_to_float : Graph → Graph * result unit;
  write_graphml : Graph → option GraphML → option GraphML * result unit;
  subgraph_node_rank : Graph → list Edge → Node → nat;
  subgraph_edge_rank : Graph → list Edge → Edge → nat;
  run_algorithm : Graph → result Partitions;
  process_partitions : Partitions → Graph → result Graph;
  analyze_communities : DB → Graph → result (option Graph);
  load_graph : option GraphML → result Graph;
  merge_final_graphs : Analyzed → Graph → result Graph;
  save_graph : Graph → option GraphML → option GraphML * result unit;
  write_graph_to_database :
    Graph → ClusterTables → ClusterTables * result (list Finding);
  shed_oldest_Transfers : list Transfer → list Transfer * result unit;
  shed_oldest_ContractTransactions :
    list ContractTransaction → list ContractTransaction * result unit
}.

Context (C : Collaborators).

(** Modelled from the spec: [update_transaction_counter] of
    [src.utils.utils], which adds one to [globals.transaction_counter]. *)
Definition update_transaction_counter : M unit :=
  modify (λ w, set_transaction_counter (transaction_counter w + 1) w).

(** [await session.commit()]: the pending state becomes the database, or
    the commit raises and the database stays as it was. *)
Definition session_commit (pending : DB) : M unit :=
  match commit_error C pending with
  | Some e => lift (Raise e)
  | None => modify (set_db pending)
  end.

(** [await session.rollback()]: the pending state is local to the session;
    discarding it leaves the world as it is. *)
Definition session_rollback : M unit := mret tt.

(** ** [process_transactions], lines 87-166, stage by stage *)

(** Lines 90-113.  [debugpy.wait_for_client()] is debugger plumbing and has
    no counterpart here. *)
Definition building : M (list Transfer * Graph) :=
  print "pulling all transfers...";;
  d ← gets db;
  let batch := unprocessed (transfers d) in
  print "transfers pulled";;
  print_int "Number of transfers:" (len batch);;
  added_edges ← on G1 set_G1 (add_transactions_to_graph C batch);
  print_int "added total edges:" (len added_edges);;
  g ← gets G1;
  print_int "Number of nodes in G1: " (number_of_nodes g);;
  print_int "Number of edges in G1: " (number_of_edges g);;
  modify (λ w, set_global_added_edges (global_added_edges w ++ added_edges) w);;
  on G1 set_G1 (adjust_edge_weights_and_variances C batch);;
  on G1 set_G1 (convert_decimal_to_float C);;
  g ← gets G1;
  on initial_global_graph_file set_initial_global_graph_file (write_graphml C g);;
  es ← gets global_added_edges;
  let subgraph :=
    edge_subgraph_digraph (subgraph_node_rank C g es) (subgraph_edge_rank C g es)
      g es in
  print_int "Number of nodes in subgraph: " (number_of_nodes subgraph);;
  print_int "Number of edges in subgraph: " (number_of_edges subgraph);;
  mret (batch, subgraph).

(** Lines 115-118. *)
Definition partitioning (subgraph : Graph) : M Graph :=
  subgraph_partitions ← lift (run_algorithm C subgraph);
  updated_subgraph ← lift (process_partitions C subgraph_partitions subgraph);
  on updated_subgraph_file set_updated_subgraph_file
    (write_graphml C updated_subgraph);;
  mret updated_subgraph.

(** Lines 120-128.  The call of [merge_new_communities] and the assignment
    of [globals.G2] are commented out in the source; what is left of the
    stage writes [globals.G2] to its file. *)
Definition merging : M unit :=
  g2 ← gets G2;
  on merged_G2_graph_file set_merged_G2_graph_file (write_graphml C g2).

(** Lines 129-130. *)
Definition scoring (updated_subgraph : Graph) : M Analyzed :=
  print "analyzing clusters for suspicious activity";;
  d ← gets db;
  r ← lift (analyze_communities C d updated_subgraph);
  mret (or_empty_list r).

(** Lines 132-137. *)
Definition previous_final_graph : M Graph :=
  initial ← gets is_initial_batch;
  if negb initial then
    f ← gets final_graph_file;
    lift (load_graph C f)
  else
    modify (set_is_initial_batch false);;
    mret empty_graph.

(** Lines 132-139. *)
Definition final_merging (analyzed_subgraph : Analyzed) : M Graph :=
  final_graph ← previous_final_graph;
  lift (merge_final_graphs C analyzed_subgraph final_graph).

(** Lines 141-153. *)
Definition serializing (final_graph : Graph) : M Graph :=
  lift (convert_attributes final_graph).

(** Lines 155-166.  Setting [transfer.processed] at lines 159-160 changes
    the session only; the commit writes it. *)
Definition persisting (batch : list Transfer) (final_graph : Graph)
    : M (list Finding) :=
  on final_graph_file set_final_graph_file (save_graph C final_graph);;
  findings ← on (λ w, clusters (db w)) (λ c w, set_db (with_clusters c (db w)) w)
               (write_graph_to_database C final_graph);
  d ← gets db;
  session_commit (with_transfers (mark_processed batch (transfers d)) d);;
  modify (set_global_added_edges []);;
  print "COMPLETE";;
  mret findings.

Definition process_transactions : M (list Finding) :=
  '(batch, subgraph) ← building;
  updated_subgraph ← partitioning subgraph;
  merging;;
  analyzed_subgraph ← scoring updated_subgraph;
  final_graph ← final_merging analyzed_subgraph;
  final_graph ← serializing final_graph;
  persisting batch final_graph.

(** ** [handle_transaction_async], lines 53-84 *)

(** Lines 60-68: the insert of the event's row, in a session of its own. *)
Definition insert_event (ev : TransactionEvent) : M unit :=
  try_except
    (d ← gets db;
     pending ← lift (add_transaction_to_db C ev d);
     session_commit pending;;
     print "Transaction data committed to table")
    (λ e,
     print_exn "Unexpected error occurred: " e;;
     session_rollback).

(** Lines 77-78. *)
Definition evicting : M unit :=
  on (λ w, transfers (db w)) (λ ts w, set_db (with_transfers ts (db w)) w)
    (shed_oldest_Transfers C);;
  on (λ w, contract_transactions (db w))
    (λ cs w, set_db (with_contract_transactions cs (db w)) w)
    (shed_oldest_ContractTransactions C).

(** Lines 74-82: what happens once the threshold is reached. *)
Definition flush (findings : list Finding) : M (list Finding) :=
  print "processing transactions";;
  fs ← process_transactions;
  let findings := (findings ++ fs)%list in
  evicting;;
  modify (set_transaction_counter 0);;
  print "ALL COMPLETE";;
  mret findings.

(** Lines 69-84. *)
Definition count_and_trigger (ev : TransactionEvent) (findings : list Finding)
    : M (list Finding) :=
  update_transaction_counter;;
  c ← gets transaction_counter;
  print_int "transaction counter is" c;;
  print_int "current block is..." (ev_block_number ev);;
  c ← gets transaction_counter;
  if bool_decide (N C ≤ c)%Z then flush findings else mret [].

Definition handle_transaction_async (ev : TransactionEvent) : M (list Finding) :=
  let findings := [] in
  print "applying initial heuristics";;
  d ← gets db;
  admitted ← lift (apply_initial_heuristics C d ev);
  if negb admitted then mret [] else
  insert_event ev;;
  count_and_trigger ev findings.

(** ** [handle_transaction], lines 40-50 *)

(** Lines 43-46. *)
Definition ensure_graph_initialized : M unit :=
  initialized ← gets is_graph_initialized;
  if negb initialized then
    print "initializing graph";;
    d ← gets db;
    on G1 set_G1 (initialize_global_graph C d);;
    modify (set_is_graph_initialized true)
  else mret tt.

Definition handle_transaction (ev : TransactionEvent) : M (list Finding) :=
  ensure_graph_initialized;;
  handle_transaction_async ev.

(** ** Prefixes of the pipeline and runs of the agent *)

(** [process_transactions] up to line 130: the batch and what the analysis
    returned. *)
Definition analysis : M (list Transfer * Analyzed) :=
  '(batch, subgraph) ← building;
  updated_subgraph ← partitioning subgraph;
  merging;;
  analyzed_subgraph ← scoring updated_subgraph;
  mret (batch, analyzed_subgraph).

(** [process_transactions] up to line 139: the batch and the final graph
    as [merge_final_graphs] returned it. *)
Definition final_merged : M (list Transfer * Graph) :=
  '(batch, analyzed_subgraph) ← analysis;
  final_graph ← final_merging analyzed_subgraph;
  mret (batch, final_graph).

(** [process_transactions] up to line 153: everything before the final
    graph is saved. *)
Definition prepare : M (list Transfer * Graph) :=
  '(batch, final_graph) ← final_merged;
  final_graph ← serializing final_graph;
  mret (batch, final_graph).

(** The rest of [process_transactions] from a given line on, once the
    lines before it have returned: lines 141-166 with the final graph of
    line 139, lines 132-166 with the result of line 130, lines 120-166 with
    the partitioned subgraph of line 117, and lines 117-166 with the
    partitions of line 115. *)
Definition after_final_merge (batch : list Transfer) (final_graph : Graph)
    : M (list Finding) :=
  final_graph ← serializing final_graph;
  persisting batch final_graph.

Definition after_scoring (batch : list Transfer) (analyzed_subgraph : Analyzed)
    : M (list Finding) :=
  final_graph ← final_merging analyzed_subgraph;
  after_final_merge batch final_graph.

Definition after_partitioning (batch : list Transfer) (updated_subgraph : Graph)
    : M (list Finding) :=
  merging;;
  analyzed_subgraph ← scoring updated_subgraph;
  after_scoring batch analyzed_subgraph.

Definition after_run_algorithm (batch : list Transfer) (subgraph : Graph)
    (subgraph_partitions : Partitions) : M (list Finding) :=
  updated_subgraph ← lift (process_partitions C subgraph_partitions subgraph);
  on updated_subgraph_file set_updated_subgraph_file
    (write_graphml C updated_subgraph);;
  after_partitioning batch updated_subgraph.

(** Modelled from the spec: the values [src.utils.globals] starts with.
    The counter is zero, no batch has run and no edge is pending. *)
Definition initial_world (w : World) : Prop :=
  transaction_counter w = 0 ∧ is_initial_batch w = true ∧
  global_added_edges w = [].

(** The worlds in which the agent starts to handle an event: an initial
    world, and the world left by the initialisation of the graph or by the
    handling of an event, whether or not it raised. *)
Inductive reachable : World → Prop :=
| reachable_start w : initial_world w → reachable w
| reachable_initialized w :
    reachable w → reachable (ensure_graph_initialized w).1
| reachable_handled w ev :
    reachable w → reachable (handle_transaction_async ev w).1.

(** Every edge that is pending in [global_added_edges] is the edge of a
    transfer that is still unprocessed. *)
Definition pending_edges_unprocessed (w : World) : Prop :=
  ∀ e, e ∈ global_added_edges w →
       e ∈ transfer_edge <$> unprocessed (transfers (db w)).

(** A program keeps the observation [f] when [f] reads the same in the world
    it leaves, whether it returns or raises. *)
Definition keeps {X A} (f : World → X) (m : M A) : Prop :=
  ∀ w, f (m w).1 = f w.

(** A program preserves the property [P] of the world. *)
Definition stays {A} (P : World → Prop) (m : M A) : Prop :=
  ∀ w, P w → P (m w).1.

(** The world with one more line on the console. *)
Definition printed (p : Printed) (w : World) : World :=
  set_stdout (stdout w ++ [p]) w.

(** The insert of the row of [ev] fails with [e] on the database [d]:
    [add_transaction_to_db] raises, or it returns and the commit raises. *)
Definition insert_fails (ev : TransactionEvent) (d : DB) (e : exn) : Prop :=
  add_transaction_to_db C ev d = Raise e ∨
  ∃ pending, add_transaction_to_db C ev d = Ok pending ∧
             commit_error C pending = Some e.

(** The world at line 73, where the counter is compared with [N], for an
    admitted event [ev] handled from [w]. *)
Definition at_threshold (ev : TransactionEvent) (w : World) : World :=
  let w := (insert_event ev (printed (Line "applying initial heuristics") w)).1 in
  let c := transaction_counter w + 1 in
  printed (LineInt "current block is..." (ev_block_number ev))
    (printed (LineInt "transaction counter is" c)
       (set_transaction_counter c w)).

(** The world in which [process_transactions] starts when [ev] triggers a
    flush. *)
Definition at_flush (ev : TransactionEvent) (w : World) : World :=
  printed (Line "processing transactions") (at_threshold ev w).

(** The world after a list of events has been handled in order. *)
Definition run (evs : list TransactionEvent) (w : World) : World :=
  foldl (λ w ev, (handle_transaction ev w).1) w evs.

(** Modelled from the spec: what [add_transactions_to_graph] and the two
    functions that follow it do to the edges of the global graph.  The
    builder returns exactly the edges its transfers lie on, all of them
    edges of the graph it leaves; adjusting weights and converting amounts
    keep the edge set. *)
Record GraphBuilder_contract : Prop := {
  builder_returns_touched : ∀ ts g g' es,
    add_transactions_to_graph C ts g = (g', Ok es) →
    ∀ e, e ∈ es ↔ e ∈ transfer_edge <$> ts;
  builder_adds_edges : ∀ ts g g' es,
    add_transactions_to_graph C ts g = (g', Ok es) →
    ∀ e, e ∈ es → e ∈ edge_keys g';
  adjust_keeps_edges : ∀ ts g g' r,
    adjust_edge_weights_and_variances C ts g = (g', r) →
    edge_keys g' = edge_keys g;
  convert_keeps_edges : ∀ g g' r,
    convert_decimal_to_float C g = (g', r) →
    edge_keys g' = edge_keys g
}.

(** What lies outside the store, the counter and the console: the flags,
    the graphs, the pending edges and the four files. *)
Definition graphs_and_files (w : World) :=
  (is_graph_initialized w, is_initial_batch w, G1 w, G2 w,
   global_added_edges w, initial_global_graph_file w, updated_subgraph_file w,
   merged_G2_graph_file w, final_graph_file w).

(** The world after [handle_transaction_async] has handled a list of events
    in order. *)
Definition handle_each (evs : list TransactionEvent) (w : World) : World :=
  foldl (λ w ev, (handle_transaction_async ev w).1) w evs.

(** The heuristics admit the event whatever the store holds. *)
Definition always_admitted (ev : TransactionEvent) : Prop :=
  ∀ d, apply_initial_heuristics C d ev = Ok true.

(** Modelled from the spec: the store is an append-only log, so inserting
    the row of an event keeps every row that is already stored. *)
Definition insert_appends : Prop :=
  ∀ ev d d', add_transaction_to_db C ev d = Ok d' →
  ∀ t, t ∈ transfers d → t ∈ transfers d'.

(** Modelled from the spec: the Evictor only deletes rows. *)
Definition eviction_deletes : Prop :=
  ∀ ts ts' r, shed_oldest_Transfers C ts = (ts', r) →
  ∀ t, t ∈ ts' → t ∈ ts.

End Agent.

Arguments World : clear implicits.
Arguments M : clear implicits.
Arguments Collaborators : clear implicits.

(** ** The migration [f04874bb37a6]: changed id to integer *)

Module Migration.

Inductive SqlType : Type :=
| VARCHAR (length : Z)
| Integer
| Numeric
| Boolean
| DateTime.

#[global] Instance SqlType_eq_dec : EqDecision SqlType.
Proof. solve_decision. Defined.

(** One call of [op.alter_column], with the arguments the migration gives
    it: the table, the column, the type the column is said to have, the
    type it is to get, and the two flags. *)
Record Directive : Type := mkAlterColumn {
  op_table : string;
  op_column : string;
  op_existing_type : SqlType;
  op_type : SqlType;
  op_existing_nullable : bool;
  op_autoincrement : bool
}.

#[global] Instance Directive_eq_dec : EqDecision Directive.
Proof. solve_decision. Defined.

(** What the database makes of a directive, given the directives it has
    accepted so far: [Some e] when it refuses the directive with [e].
    Which changes of type a database accepts, and what it does with
    [autoincrement], differs from one database to the next and is not
    decided by the migration. *)
Definition Engine := list Directive → Directive → option exn.

(** [op.alter_column(table, column, existing_type=..., type_=...,
    existing_nullable=..., autoincrement=...)]: the directive is handed to
    the database; when the database refuses it the call raises, otherwise
    the directive joins those the database has accepted. *)
Definition alter_column (engine : Engine) (t c : string)
    (existing_type type_ : SqlType) (existing_nullable autoincrement : bool)
    (accepted : list Directive) : list Directive * result unit :=
  let d := mkAlterColumn t c existing_type type_ existing_nullable autoincrement in
  match engine accepted d with
  | Some e => (accepted, Raise e)
  | None => ((accepted ++ [d])%list, Ok tt)
  end.

(** Lines 21-33. *)
Definition upgrade (engine : Engine) (accepted : list Directive)
    : list Directive * result unit :=
  match alter_column engine "eoas" "id" (VARCHAR 36) Integer false true accepted with
  | (accepted, Ok _) =>
      alter_column engine "suspicious_clusters" "id" (VARCHAR 36) Integer
        false true accepted
  | (accepted, Raise e) => (accepted, Raise e)
  end.

(** Lines 36-48. *)
Definition downgrade (engine : Engine) (accepted : list Directive)
    : list Directive * result unit :=
  match alter_column engine "suspicious_clusters" "id" Integer (VARCHAR 36)
          false true accepted with
  | (accepted, Ok _) =>
      alter_column engine "eoas" "id" Integer (VARCHAR 36) false true accepted
  | (accepted, Raise e) => (accepted, Raise e)
  end.

(** A database that accepts every directive. *)
Definition accepting : Engine := λ _ _, None.

(** The directive that undoes a directive: the same column, with the two
    types exchanged. *)
Definition inverse (d : Directive) : Directive :=
  mkAlterColumn (op_table d) (op_column d) (op_type d) (op_existing_type d)
    (op_existing_nullable d) (op_autoincrement d).

(** Whether one of the directives names the column [c] of the table [t]. *)
Definition alters (ds : list Directive) (t c : string) : bool :=
  existsb (λ d, bool_decide (op_table d = t) && bool_decide (op_column d = c)) ds.

(** Whether the column [c] of the table [t] is one of the two keys: [id]
    of [eoas] or of [suspicious_clusters]. *)
Definition names_key (t c : string) : bool :=
  bool_decide (c = "id") &&
  (bool_decide (t = "eoas") || bool_decide (t = "suspicious_clusters")).

(** A column of a table: its type, its flags and, for a cross-reference,
    the table and column it refers to. *)
Record Column : Type := mkColumn {
  col_name : string;
  col_type : SqlType;
  col_nullable : bool;
  col_autoincrement : bool;
  col_references : option (string * string)
}.

Record Table : Type := mkTable {
  table_name : string;
  columns : list Column
}.

Definition Schema := list Table.

(** The cross-references of a schema: the referring table and column with
    the table and column referred to. *)
Definition cross_references (s : Schema)
    : list ((string * string) * (string * string)) :=
  tb ← s; col ← columns tb;
  match col_references col with
  | Some key => [((table_name tb, col_name col), key)]
  | None => []
  end.

(** The directives carry the cross-references of a schema along when every
    column that refers to a column they alter is altered by them too. *)
Definition carries_references (ds : list Directive) (s : Schema) : bool :=
  forallb (λ r, implb (alters ds r.2.1 r.2.2) (alters ds r.1.1 r.1.2))
    (cross_references s).

(** Modelled from the spec: the two tables as the data model has them,
    with string keys and the EOA rows' reference to the cluster they belong
    to. *)
Definition string_keyed : Schema :=
  [ mkTable "eoas"
      [ mkColumn "id" (VARCHAR 36) false false None;
        mkColumn "address" (VARCHAR 42) false false None;
        mkColumn "cluster_id" (VARCHAR 36) true false
          (Some ("suspicious_clusters", "id")) ];
    mkTable "suspicious_clusters"
      [ mkColumn "id" (VARCHAR 36) false false None;
        mkColumn "members" (VARCHAR 4096) true false None ] ].

End Migration.

(** ** A concrete set of collaborators

    Small stand-ins for the imported functions, used to run the pipeline on
    concrete events.  A GraphML file is represented by the graph that was
    written to it; a partition table gives each node its label. *)

Module Demo.

(** A writer that refuses attribute values GraphML has no type for. *)
Definition graphml_writer (g : Graph) (old : option Graph)
    : option Graph * result unit :=
  if all_scalar g then (Some g, Ok tt)
  else (old, Raise (Error "GraphML writer does not support this data value")).

Definition graph_loader (f : option Graph) : result Graph :=
  match f with
  | Some g => Ok g
  | None => Raise (Error "No such file or directory")
  end.

Definition add_node (n : Node) (g : Graph) : Graph :=
  if bool_decide (n ∈ node_keys g) then g
  else mkGraph (nodes g ++ [(n, [])]) (edges g).

Definition weight_of (d : Attrs) : Z :=
  match d with
  | [(_, VInt z)] => z
  | _ => 0
  end.

Definition add_weighted_edge (e : Edge) (a : Z) (g : Graph) : Graph :=
  let g := add_node e.2 (add_node e.1 g) in
  if bool_decide (e ∈ edge_keys g) then
    mkGraph (nodes g)
      ((λ ed, if bool_decide (ed.1 = e)
              then (ed.1, [("weight", VInt (weight_of ed.2 + a))])
              else ed) <$> edges g)
  else mkGraph (nodes g) (edges g ++ [(e, [("weight", VInt a)])]).

(** Modelled from the spec: [add_transactions_to_graph].  Every transfer
    adds its amount to the edge from its sender to its receiver; the edges
    touched are returned. *)
Definition graph_builder (ts : list Transfer) (g : Graph)
    : Graph * result (list Edge) :=
  (foldl (λ g t, add_weighted_edge (transfer_edge t) (amount t) g) g ts,
   Ok (transfer_edge <$> ts)).

(** One community for the whole subgraph. *)
Definition partitioner (g : Graph) : result (list (Node * Z)) :=
  Ok ((λ n, (n.1, 0)) <$> nodes g).

Definition labeller (p : list (Node * Z)) (g : Graph) : result Graph :=
  Ok (mkGraph
        ((λ n, (n.1, n.2 ++ [("community", VInt 0)])%list) <$> nodes g)
        (edges g)).

(** A community of three or more nodes is reported. *)
Definition analyzer (d : DB) (g : Graph) : result (option Graph) :=
  Ok (if bool_decide (3 ≤ length (nodes g))%nat then Some g else None).

Definition graph_union (g h : Graph) : Graph :=
  mkGraph
    (nodes g ++ filter (λ n, n.1 ∉ node_keys g) (nodes h))
    (edges g ++ filter (λ e, e.1 ∉ edge_keys g) (edges h)).

Definition final_merger (a : Analyzed) (g : Graph) : result Graph :=
  match a with
  | AnalyzedGraph h => Ok (graph_union g h)
  | EmptyList => Ok g
  end.

Definition graph_saver (g : Graph) (old : option Graph)
    : option Graph * result unit :=
  (Some g, Ok tt).

Definition cluster_writer (g : Graph) (c : ClusterTables)
    : ClusterTables * result (list Finding) :=
  let id := len (suspicious_clusters c) + 1 in
  (mkClusterTables
     (eoas c ++ ((λ n, mkEOA 0 n (Some id)) <$> node_keys g))
     (suspicious_clusters c ++ [mkSuspiciousCluster id "members" "score"]),
   Ok [mkFinding id (node_keys g) "cyclic transfers" "high"]).

(** The database refuses a row without an asset. *)
Definition inserter (ev : TransactionEvent) (d : DB) : result DB :=
  if bool_decide (ev_asset ev = EmptyString) then
    Raise (Error "NOT NULL constraint failed: transfers.asset")
  else
    Ok (with_transfers
          (transfers d ++
           [mkTransfer (len (transfers d) + 1) (ev_from ev) (ev_to ev)
              (ev_asset ev) (ev_value ev) (ev_block_number ev)
              (ev_timestamp ev) false]) d).

Definition no_eviction {A} (rows : list A) : list A * result unit := (rows, Ok tt).

(** The collaborators, with the three that the examples vary left open. *)
Definition collaborators_with
    (merge : Analyzed → Graph → result Graph)
    (to_database : Graph → ClusterTables → ClusterTables * result (list Finding))
    (shed : list Transfer → list Transfer * result unit)
    : Collaborators Graph (list (Node * Z)) :=
  {| N := 3;
     initialize_global_graph := λ _ g, (g, Ok tt);
     apply_initial_heuristics := λ _ ev, Ok (bool_decide (0 < ev_value ev));
     add_transaction_to_db := inserter;
     commit_error := λ _, None;
     add_transactions_to_graph := graph_builder;
     adjust_edge_weights_and_variances := λ _ g, (g, Ok tt);
     convert_decimal_to_float := λ g, (g, Ok tt);
     write_graphml := graphml_writer;
     subgraph_node_rank := λ _ _ _, 0%nat;
     subgraph_edge_rank := λ _ _ _, 0%nat;
     run_algorithm := partitioner;
     process_partitions := labeller;
     analyze_communities := analyzer;
     load_graph := graph_loader;
     merge_final_graphs := merge;
     save_graph := graph_saver;
     write_graph_to_database := to_database;
     shed_oldest_Transfers := shed;
     shed_oldest_ContractTransactions := no_eviction |}.

Definition collaborators : Collaborators Graph (list (Node * Z)) :=
  collaborators_with final_merger cluster_writer no_eviction.

(** The state of a freshly started agent. *)
Definition start : World Graph :=
  mkWorld false 0 true (mkGraph [] []) (mkGraph [] []) []
    (mkDB [] [] (mkClusterTables [] [])) None None None None [].

Definition event (from to : Node) (value block : Z) : TransactionEvent :=
  mkTransactionEvent "0x" from to "ETH" value block block None.

(** The scenario of the specification: A->B (10), B->C (10), A->C (5). *)
Definition ev1 := event "A" "B" 10 1.
Definition ev2 := event "B" "C" 10 2.
Definition ev3 := event "A" "C" 5 3.

(** An event whose row the database refuses. *)
Definition ev_bad : TransactionEvent :=
  mkTransactionEvent "0x" "A" "B" EmptyString 7 4 4 None.

(** Collaborators that fail. *)
Definition locked : exn := Error "database is locked".

Definition failing_cluster_writer (g : Graph) (c : ClusterTables)
    : ClusterTables * result (list Finding) :=
  (c, Raise locked).

Definition failing_eviction (ts : list Transfer) : list Transfer * result unit :=
  (ts, Raise locked).

(** A final merger that labels every node of the merged graph with the
    list of its members, the class of the record and a profile. *)
Definition tagging_merger (a : Analyzed) (g : Graph) : result Graph :=
  g ← final_merger a g;
  Ok (mkGraph
        ((λ n, (n.1, [("members", VList [VStr n.1]);
                      ("kind", VType "type" "<class 'Cluster'>");
                      ("profile", VDict [("degree", VInt 2)])])) <$> nodes g)
        (edges g)).

Definition collaborators_tagging : Collaborators Graph (list (Node * Z)) :=
  collaborators_with tagging_merger cluster_writer no_eviction.

(** A graph with one node that has a dictionary among its attributes. *)
Definition profiled : Graph :=
  mkGraph [("A", [("members", VList [VStr "A"]);
                  ("profile", VDict [("degree", VInt 2)])])] [].

(** Collaborators whose [initialize_global_graph] raises. *)
Definition collaborators_no_graph : Collaborators Graph (list (Node * Z)) :=
  {| N := 3;
     initialize_global_graph := λ _ g, (g, Raise locked);
     apply_initial_heuristics := λ _ ev, Ok (bool_decide (0 < ev_value ev));
     add_transaction_to_db := inserter;
     commit_error := λ _, None;
     add_transactions_to_graph := graph_builder;
     adjust_edge_weights_and_variances := λ _ g, (g, Ok tt);
     convert_decimal_to_float := λ g, (g, Ok tt);
     write_graphml := graphml_writer;
     subgraph_node_rank := λ _ _ _, 0%nat;
     subgraph_edge_rank := λ _ _ _, 0%nat;
     run_algorithm := partitioner;
     process_partitions := labeller;
     analyze_communities := analyzer;
     load_graph := graph_loader;
     merge_final_graphs := final_merger;
     save_graph := graph_saver;
     write_graph_to_database := cluster_writer;
     shed_oldest_Transfers := no_eviction;
     shed_oldest_ContractTransactions := no_eviction |}.

(** Collaborators whose [adjust_edge_weights_and_variances] raises. *)
Definition no_variance : exn := Error "float division by zero".

Definition collaborators_no_variance : Collaborators Graph (list (Node * Z)) :=
  {| N := 3;
     initialize_global_graph := λ _ g, (g, Ok tt);
     apply_initial_heuristics := λ _ ev, Ok (bool_decide (0 < ev_value ev));
     add_transaction_to_db := inserter;
     commit_error := λ _, None;
     add_transactions_to_graph := graph_builder;
     adjust_edge_weights_and_variances := λ _ g, (g, Raise no_variance);
     convert_decimal_to_float := λ g, (g, Ok tt);
     write_graphml := graphml_writer;
     subgraph_node_rank := λ _ _ _, 0%nat;
     subgraph_edge_rank := λ _ _ _, 0%nat;
     run_algorithm := partitioner;
     process_partitions := labeller;
     analyze_communities := analyzer;
     load_graph := graph_loader;
     merge_final_graphs := final_merger;
     save_graph := graph_saver;
     write_graph_to_database := cluster_writer;
     shed_oldest_Transfers := no_eviction;
     shed_oldest_ContractTransactions := no_eviction |}.

Definition collaborators_database_locked : Collaborators Graph (list (Node * Z)) :=
  collaborators_with final_merger failing_cluster_writer no_eviction.

Definition collaborators_eviction_fails : Collaborators Graph (list (Node * Z)) :=
  collaborators_with final_merger cluster_writer failing_eviction.

(** A final merger that records the amounts of the batch as [Decimal]
    values in a list, which [json.dumps] does not encode. *)
Definition decimal_merger (a : Analyzed) (g : Graph) : result Graph :=
  g ← final_merger a g;
  Ok (mkGraph
        ((λ n, (n.1, [("amounts", VList [VObject "Decimal"])])) <$> nodes g)
        (edges g)).

Definition collaborators_decimal : Collaborators Graph (list (Node * Z)) :=
  collaborators_with decimal_merger cluster_writer no_eviction.

(** Three more events, for a second batch. *)
Definition ev4 := event "C" "D" 7 4.
Definition ev5 := event "D" "E" 7 5.
Definition ev6 := event "C" "E" 3 6.

(** The agent after the first two events of the scenario. *)
Definition after_two : World Graph := run collaborators [ev1; ev2] start.

(** The batch of the scenario, the subgraph of its edges, its communities
    and the final graph as [tagging_merger] returns it. *)
Definition batch3 : list Transfer :=
  [ mkTransfer 1 "A" "B" "ETH" 10 1 1 false;
    mkTransfer 2 "B" "C" "ETH" 10 2 2 false;
    mkTransfer 3 "A" "C" "ETH" 5 3 3 false ].

Definition triangle_edges : list (Edge * Attrs) :=
  [ (("A", "B"), [("weight", VInt 10)]);
    (("B", "C"), [("weight", VInt 10)]);
    (("A", "C"), [("weight", VInt 5)]) ].

Definition triangle : Graph :=
  mkGraph [("A", []); ("B", []); ("C", [])] triangle_edges.

Definition communities : Graph :=
  mkGraph [("A", [("community", VInt 0)]); ("B", [("community", VInt 0)]);
           ("C", [("community", VInt 0)])] triangle_edges.

Definition tags (n : Node) : Attrs :=
  [("members", VList [VStr n]); ("kind", VType "type" "<class 'Cluster'>");
   ("profile", VDict [("degree", VInt 2)])].

Definition tagged : Graph :=
  mkGraph [("A", tags "A"); ("B", tags "B"); ("C", tags "C")] triangle_edges.

(** The worlds the third event of the scenario goes through. *)
Definition built : World Graph :=
  (building collaborators (at_flush collaborators ev3 after_two)).1.

Definition analyzed : World Graph :=
  (analysis collaborators (at_flush collaborators ev3 after_two)).1.

Definition merged : World Graph :=
  (final_merged collaborators_tagging
     (at_flush collaborators_tagging ev3 after_two)).1.

Definition locked_out : World Graph :=
  (process_transactions collaborators_database_locked
     (at_flush collaborators_database_locked ev3 after_two)).1.

Definition persisted : World Graph :=
  (process_transactions collaborators (at_flush collaborators ev3 after_two)).1.

Definition persisted_unevicted : World Graph :=
  (process_transactions collaborators_eviction_fails
     (at_flush collaborators_eviction_fails ev3 after_two)).1.

Definition flushed : World Graph :=
  (handle_transaction_async collaborators ev3 after_two).1.

(** The world in which the partitioned subgraph of the scenario has been
    written. *)
Definition partitioned : World Graph :=
  (partitioning collaborators triangle built).1.

(** The second batch: the agent after the scenario and two more events, the
    batch that the sixth event triggers, the subgraph of its edges and its
    communities. *)
Definition after_five : World Graph :=
  handle_each collaborators [ev4; ev5] flushed.

Definition batch6 : list Transfer :=
  [ mkTransfer 4 "C" "D" "ETH" 7 4 4 false;
    mkTransfer 5 "D" "E" "ETH" 7 5 5 false;
    mkTransfer 6 "C" "E" "ETH" 3 6 6 false ].

Definition second_edges : list (Edge * Attrs) :=
  [ (("C", "D"), [("weight", VInt 7)]);
    (("D", "E"), [("weight", VInt 7)]);
    (("C", "E"), [("weight", VInt 3)]) ].

Definition second_subgraph : Graph :=
  mkGraph [("C", []); ("D", []); ("E", [])] second_edges.

Definition second_communities : Graph :=
  mkGraph [("C", [("community", VInt 0)]); ("D", [("community", VInt 0)]);
           ("E", [("community", VInt 0)])] second_edges.

Definition built_again : World Graph :=
  (building collaborators (at_flush collaborators ev6 after_five)).1.

Definition analyzed_again : World Graph :=
  (analysis collaborators (at_flush collaborators ev6 after_five)).1.

(** A batch after a failed one: the fourth event arrives when the batch of
    the scenario has failed in [write_graph_to_database]. *)
Definition batch4 : list Transfer :=
  batch3 ++ [ mkTransfer 4 "C" "D" "ETH" 7 4 4 false ].

Definition retried_subgraph : Graph :=
  mkGraph [("A", []); ("B", []); ("C", []); ("D", [])]
    [ (("A", "B"), [("weight", VInt 20)]);
      (("B", "C"), [("weight", VInt 20)]);
      (("A", "C"), [("weight", VInt 10)]);
      (("C", "D"), [("weight", VInt 7)]) ].

Definition built_retry : World Graph :=
  (building collaborators_database_locked
     (at_flush collaborators_database_locked ev4 locked_out)).1.

(** The first batch fails in Building, after the builder has returned. *)
Definition half_built : World Graph :=
  (process_transactions collaborators_no_variance
     (at_flush collaborators_no_variance ev3 after_two)).1.

(** The first batch fails in the conversion of attributes. *)
Definition not_encoded : World Graph :=
  (handle_transaction_async collaborators_decimal ev3 after_two).1.

Definition built_empty : World Graph := (building collaborators start).1.

Definition scored : World Graph := (scoring collaborators communities start).1.

Definition scenario_findings : list Finding :=
  [mkFinding 1 ["A"; "B"; "C"] "cyclic transfers" "high"].

Definition refused : exn :=
  Error "NOT NULL constraint failed: transfers.asset".

End Demo.

(** * Properties *)

(** ** Reasoning about programs of the monad *)

Section Frames.

Context {GraphML : Type}.
#[local] Abbreviation World := (World GraphML).
#[local] Abbreviation M := (M GraphML).

Lemma keeps_ret {X A} (f : World → X) (a : A) : keeps f (mret a).
Proof. intros w. reflexivity. Qed.

Lemma keeps_gets {X A} (f : World → X) (g : World → A) : keeps f (gets g).
Proof. intros w. reflexivity. Qed.

Lemma keeps_lift {X A} (f : World → X) (r : result A) : keeps f (lift r).
Proof. intros w. reflexivity. Qed.

Lemma keeps_modify {X} (f : World → X) (g : World → World) :
  (∀ w, f (g w) = f w) → keeps f (modify g).
Proof. intros H w. apply H. Qed.

Lemma keeps_on {X S A} (f : World → X) (get : World → S)
    (set : S → World → World) (c : S → S * result A) :
  (∀ s w, f (set s w) = f w) → keeps f (on get set c).
Proof. intros H w. unfold on. destruct (c (get w)) as [s r]. apply H. Qed.

Lemma keeps_bind {X A B} (f : World → X) (m : M A) (k : A → M B) :
  keeps f m → (∀ a, keeps f (k a)) → keeps f (m ≫= k).
Proof.
  intros Hm Hk w. unfold mbind, M_bind.
  specialize (Hm w). destruct (m w) as [w1 [a|e]]; simpl in *.
  - rewrite Hk. exact Hm.
  - exact Hm.
Qed.

Lemma keeps_try_except {X A} (f : World → X) (m : M A) (h : exn → M A) :
  keeps f m → (∀ e, keeps f (h e)) → keeps f (try_except m h).
Proof.
  intros Hm Hh w. unfold try_except.
  specialize (Hm w). destruct (m w) as [w1 [a|e]]; simpl in *.
  - exact Hm.
  - rewrite Hh. exact Hm.
Qed.

Lemma keeps_print {X} (f : World → X) (s : string) :
  (∀ out w, f (set_stdout out w) = f w) → keeps f (print s).
Proof. intros H. apply keeps_modify. intros w. apply H. Qed.

Lemma keeps_print_int {X} (f : World → X) (s : string) (z : Z) :
  (∀ out w, f (set_stdout out w) = f w) → keeps f (print_int s z).
Proof. intros H. apply keeps_modify. intros w. apply H. Qed.

Lemma keeps_print_exn {X} (f : World → X) (s : string) (e : exn) :
  (∀ out w, f (set_stdout out w) = f w) → keeps f (print_exn s e).
Proof. intros H. apply keeps_modify. intros w. apply H. Qed.

(** How a sequence of two programs ends. *)
Lemma bind_Ok {A B} (m : M A) (k : A → M B) w w' b :
  (m ≫= k) w = (w', Ok b) →
  ∃ w1 a, m w = (w1, Ok a) ∧ k a w1 = (w', Ok b).
Proof.
  unfold mbind, M_bind. destruct (m w) as [w1 [a|e]]; intros H.
  - exists w1, a. split; [reflexivity | exact H].
  - discriminate.
Qed.

Lemma bind_Raise {A B} (m : M A) (k : A → M B) w w' e :
  (m ≫= k) w = (w', Raise e) →
  m w = (w', Raise e) ∨ ∃ w1 a, m w = (w1, Ok a) ∧ k a w1 = (w', Raise e).
Proof.
  unfold mbind, M_bind. destruct (m w) as [w1 [a|e1]]; intros H.
  - right. exists w1, a. split; [reflexivity | exact H].
  - left. injection H as -> ->. reflexivity.
Qed.

Lemma bind_of_Ok {A B} (m : M A) (k : A → M B) w w1 a :
  m w = (w1, Ok a) → (m ≫= k) w = k a w1.
Proof. intros H. unfold mbind, M_bind. rewrite H. reflexivity. Qed.

Lemma bind_of_Raise {A B} (m : M A) (k : A → M B) w w1 e :
  m w = (w1, Raise e) → (m ≫= k) w = (w1, Raise e).
Proof. intros H. unfold mbind, M_bind. rewrite H. reflexivity. Qed.

Lemma stays_bind {A B} (P : World → Prop) (m : M A) (k : A → M B) :
  stays P m → (∀ a, stays P (k a)) → stays P (m ≫= k).
Proof.
  intros Hm Hk w HP. unfold mbind, M_bind.
  specialize (Hm w HP). destruct (m w) as [w1 [a|e]]; simpl in *.
  - apply Hk. exact Hm.
  - exact Hm.
Qed.

Lemma stays_keeps {X A} (f : World → X) (P : X → Prop) (m : M A) :
  keeps f m → stays (λ w, P (f w)) m.
Proof. intros Hk w HP. rewrite Hk. exact HP. Qed.

Lemma keeps_session_commit {X Partitions} (f : World → X)
    (C : Collaborators GraphML Partitions) (pending : DB) :
  (∀ d w, f (set_db d w) = f w) → keeps f (session_commit C pending).
Proof.
  intros H. unfold session_commit. destruct (commit_error C pending).
  - apply keeps_lift.
  - apply keeps_modify. intros w. apply H.
Qed.

End Frames.

(** [frame] proves that a program built from the primitives keeps an
    observation, provided every setter it uses leaves the observation alone. *)
Ltac frame_step :=
  first
    [ assumption
    | apply keeps_ret
    | apply keeps_gets
    | apply keeps_lift
    | apply keeps_print; reflexivity
    | apply keeps_print_int; reflexivity
    | apply keeps_print_exn; reflexivity
    | apply keeps_modify; reflexivity
    | apply keeps_on; reflexivity
    | apply keeps_session_commit; reflexivity
    | apply keeps_try_except; [ | intros ? ]
    | apply keeps_bind; [ | intros ? ]
    | match goal with
      | |- keeps _ (let '(_, _) := ?p in _) => destruct p
      | |- keeps _ (if ?b then _ else _) => destruct b
      | |- keeps _ (match ?x with _ => _ end) => destruct x
      end ].

Ltac frame := repeat frame_step.

(** ** The conversion of attributes, lines 141-153 *)

Section Conversion.

Lemma result_mapM_Ok {A B} (f : A → result B) l l' :
  result_mapM f l = Ok l' → Forall2 (λ x y, f x = Ok y) l l'.
Proof.
  revert l'. induction l as [| x l IH]; intros l' H; simpl in H.
  - injection H as <-. constructor.
  - destruct (f x) as [y|e] eqn:Hx; simpl in H; [| discriminate].
    destruct (result_mapM f l) as [ys|e]; simpl in H; [| discriminate].
    injection H as <-. constructor; [exact Hx | apply IH; reflexivity].
Qed.

Lemma result_mapM_Raise {A B} (f : A → result B) l e :
  result_mapM f l = Raise e → ∃ x, x ∈ l ∧ f x = Raise e.
Proof.
  induction l as [| x l IH]; intros H; simpl in H; [discriminate |].
  destruct (f x) as [y|e1] eqn:Hx; simpl in H.
  - destruct (result_mapM f l) as [ys|e2]; simpl in H; [discriminate |].
    injection H as ->. destruct IH as (x' & Hin & Hx'); [reflexivity |].
    exists x'. split; [apply list_elem_of_further; exact Hin | exact Hx'].
  - injection H as ->. exists x. split; [apply list_elem_of_here | exact Hx].
Qed.

Lemma convert_value_Ok v v' : convert_value v = Ok v' → value_converted v v'.
Proof.
  destruct v; unfold convert_value, value_converted;
    try (intros [= <-]; reflexivity).
  destruct (json_dumps (VList l)) as [s|e]; simpl; [| discriminate].
  intros [= <-]. exists s. split; reflexivity.
Qed.

Lemma convert_value_Raise v e :
  convert_value v = Raise e → ∃ l, v = VList l ∧ json_dumps (VList l) = Raise e.
Proof.
  destruct v; unfold convert_value; try discriminate.
  destruct (json_dumps (VList l)) as [s|e1] eqn:Hj; simpl; [discriminate |].
  intros [= ->]. exists l. split; [reflexivity | exact Hj].
Qed.

Lemma value_converted_scalar v v' :
  value_converted v v' → is_scalar v' = convertible v.
Proof.
  destruct v; simpl; try (intros ->; reflexivity).
  intros (s & _ & ->). reflexivity.
Qed.

Lemma convert_data_Ok d d' : convert_data d = Ok d' → attrs_converted d d'.
Proof.
  intros H. apply result_mapM_Ok in H.
  eapply Forall2_impl; [exact H |]. intros [k v] [k' v']. simpl.
  destruct (convert_value v) as [v1|e] eqn:Hv; simpl; [| discriminate].
  intros [= <- <-]. split; [reflexivity | apply convert_value_Ok; exact Hv].
Qed.

Lemma convert_data_Raise d e :
  convert_data d = Raise e →
  ∃ l, VList l ∈ d.*2 ∧ json_dumps (VList l) = Raise e.
Proof.
  intros H. apply result_mapM_Raise in H as ([k v] & Hin & H). simpl in H.
  destruct (convert_value v) as [v1|e1] eqn:Hv; simpl in H; [discriminate |].
  injection H as ->. apply convert_value_Raise in Hv as (l & -> & Hj).
  exists l. split; [| exact Hj].
  apply list_elem_of_fmap. exists (k, VList l). split; [reflexivity | exact Hin].
Qed.

Lemma convert_entries_Ok {K} (es es' : list (K * Attrs)) :
  result_mapM (λ n, d ← convert_data n.2; Ok (n.1, d)) es = Ok es' →
  Forall2 (λ n n', n'.1 = n.1 ∧ attrs_converted n.2 n'.2) es es'.
Proof.
  intros H. apply result_mapM_Ok in H.
  eapply Forall2_impl; [exact H |]. intros [k d] [k' d']. simpl.
  destruct (convert_data d) as [d1|e] eqn:Hd; simpl; [| discriminate].
  intros [= <- <-]. split; [reflexivity | apply convert_data_Ok; exact Hd].
Qed.

Lemma convert_entries_Raise {K} (es : list (K * Attrs)) e :
  result_mapM (λ n, d ← convert_data n.2; Ok (n.1, d)) es = Raise e →
  ∃ l, VList l ∈ flat_map (λ n, n.2.*2) es ∧ json_dumps (VList l) = Raise e.
Proof.
  intros H. apply result_mapM_Raise in H as ([k d] & Hin & H). simpl in H.
  destruct (convert_data d) as [d1|e1] eqn:Hd; simpl in H; [discriminate |].
  injection H as ->. apply convert_data_Raise in Hd as (l & Hl & Hj).
  exists l. split; [| exact Hj].
  apply list_elem_of_In, in_flat_map. exists (k, d).
  split; apply list_elem_of_In; assumption.
Qed.

Lemma convert_attributes_Ok g g' :
  convert_attributes g = Ok g' → graph_converted g g'.
Proof.
  unfold convert_attributes. intros H.
  destruct (result_mapM _ (nodes g)) as [ns|e] eqn:Hn; simpl in H; [| discriminate].
  destruct (result_mapM _ (edges g)) as [es|e] eqn:He; simpl in H; [| discriminate].
  injection H as <-. split; simpl; apply convert_entries_Ok; assumption.
Qed.

Lemma convert_attributes_Raise g e :
  convert_attributes g = Raise e →
  ∃ l, VList l ∈ attribute_values g ∧ json_dumps (VList l) = Raise e.
Proof.
  unfold convert_attributes, attribute_values. intros H.
  destruct (result_mapM _ (nodes g)) as [ns|e1] eqn:Hn; simpl in H.
  - destruct (result_mapM _ (edges g)) as [es|e2] eqn:He; simpl in H;
      [discriminate |].
    injection H as ->. apply convert_entries_Raise in He as (l & Hl & Hj).
    exists l. split; [| exact Hj]. apply elem_of_app. right. exact Hl.
  - injection H as ->. apply convert_entries_Raise in Hn as (l & Hl & Hj).
    exists l. split; [| exact Hj]. apply elem_of_app. left. exact Hl.
Qed.

Lemma attrs_converted_scalar d d' :
  attrs_converted d d' → forallb is_scalar d'.*2 = forallb convertible d.*2.
Proof.
  induction 1 as [| [k v] [k' v'] d d' [_ Hv] _ IH]; [reflexivity |].
  csimpl in *. rewrite IH, (value_converted_scalar v v') by exact Hv.
  reflexivity.
Qed.

Lemma entries_converted_scalar {K} (es es' : list (K * Attrs)) :
  Forall2 (λ n n', n'.1 = n.1 ∧ attrs_converted n.2 n'.2) es es' →
  forallb is_scalar (flat_map (λ n, n.2.*2) es') =
  forallb convertible (flat_map (λ n, n.2.*2) es).
Proof.
  induction 1 as [| [k d] [k' d'] es es' [_ Hd] _ IH]; [reflexivity |].
  csimpl in *. rewrite !forallb_app, IH, (attrs_converted_scalar d d') by exact Hd.
  reflexivity.
Qed.

(** After the loops an attribute is a scalar exactly when it was a scalar,
    a class or a list before. *)
Lemma graph_converted_scalar g g' :
  graph_converted g g' →
  all_scalar g' = forallb convertible (attribute_values g).
Proof.
  intros [Hn He]. unfold all_scalar, attribute_values.
  rewrite !forallb_app.
  rewrite (entries_converted_scalar _ _ Hn), (entries_converted_scalar _ _ He).
  reflexivity.
Qed.

End Conversion.

(** ** The subgraph of the listed edges *)

Lemma enumerate_insert_Permutation {K} (rank : K → nat) x l :
  enumerate_insert rank x l ≡ₚ x :: l.
Proof.
  induction l as [| y l IH]; simpl; [reflexivity |].
  destruct (rank x.1 <=? rank y.1)%nat; [reflexivity |].
  rewrite IH. apply Permutation_swap.
Qed.

(** Enumerating a table by rank neither adds nor drops an entry. *)
Lemma enumerate_Permutation {K} (rank : K → nat) l : enumerate rank l ≡ₚ l.
Proof.
  induction l as [| x l IH]; simpl; [reflexivity |].
  rewrite enumerate_insert_Permutation, IH. reflexivity.
Qed.

Lemma edge_subgraph_edge_keys nr er g es e :
  e ∈ edge_keys (edge_subgraph_digraph nr er g es) ↔ e ∈ edge_keys g ∧ e ∈ es.
Proof.
  unfold edge_keys, edge_subgraph_digraph. simpl.
  rewrite enumerate_Permutation. split.
  - intros H. apply list_elem_of_fmap in H as ([e' d] & -> & H).
    apply list_elem_of_filter in H as [Hsel Hin]. simpl in *. split; [| exact Hsel].
    apply list_elem_of_fmap. exists (e', d). split; [reflexivity | exact Hin].
  - intros [H Hsel]. apply list_elem_of_fmap in H as ([e' d] & -> & H).
    apply list_elem_of_fmap. exists (e', d). split; [reflexivity |].
    apply list_elem_of_filter. split; assumption.
Qed.

Lemma endpoints_elem es n :
  n ∈ endpoints es ↔ ∃ e, e ∈ es ∧ (n = e.1 ∨ n = e.2).
Proof.
  unfold endpoints. rewrite list_elem_of_In, in_flat_map. split.
  - intros (e & He & Hn). exists e. split; [apply list_elem_of_In; exact He |].
    simpl in Hn. destruct Hn as [<- | [<- | []]]; [left | right]; reflexivity.
  - intros (e & He & Hn). exists e. split; [apply list_elem_of_In; exact He |].
    simpl. destruct Hn as [-> | ->]; [left | right; left]; reflexivity.
Qed.

Lemma edge_subgraph_node_keys nr er g es n :
  n ∈ node_keys (edge_subgraph_digraph nr er g es) → n ∈ endpoints es.
Proof.
  unfold node_keys, edge_subgraph_digraph. simpl. intros H.
  rewrite enumerate_Permutation in H.
  apply list_elem_of_fmap in H as ([n' d] & -> & H).
  apply list_elem_of_filter in H as [Hsel _]. exact Hsel.
Qed.

Section AgentFacts.

Context {GraphML Partitions : Type} (C : Collaborators GraphML Partitions).
#[local] Abbreviation World := (World GraphML).
#[local] Abbreviation M := (M GraphML).

(** *** The durable community graph is never assigned *)

Lemma process_transactions_keeps_G2 : keeps G2 (process_transactions C).
Proof.
  unfold process_transactions, building, partitioning, merging, scoring,
    final_merging, previous_final_graph, serializing, persisting.
  frame.
Qed.

(** *** The handler, block by block *)

(** The insert of the event's row never raises. *)
Lemma insert_event_returns ev w : (insert_event C ev w).2 = Ok tt.
Proof.
  unfold insert_event, try_except, session_commit, session_rollback,
    mbind, M_bind, gets, lift, print, print_exn, modify, mret, M_ret.
  destruct (add_transaction_to_db C ev (db w)) as [pending|e]; simpl;
    [destruct (commit_error C pending); simpl |]; reflexivity.
Qed.

(** When the insert fails, the exception is printed and nothing else
    changes: the pending row is gone with the session. *)
Lemma insert_event_failure ev w e :
  insert_fails C ev (db w) e →
  insert_event C ev w =
    (printed (LineExn "Unexpected error occurred: " e) w, Ok tt).
Proof.
  unfold insert_event, try_except, session_commit, session_rollback,
    mbind, M_bind, gets, lift, print, print_exn, modify, mret, M_ret.
  intros [H | (pending & H & Hc)]; rewrite H; simpl; [reflexivity |].
  rewrite Hc. reflexivity.
Qed.

Lemma insert_event_keeps_counter ev :
  keeps transaction_counter (insert_event C ev).
Proof. unfold insert_event, session_rollback. frame. Qed.

Lemma insert_event_keeps_pending_edges ev :
  keeps global_added_edges (insert_event C ev).
Proof. unfold insert_event, session_rollback. frame. Qed.

Lemma handle_transaction_async_admitted ev w :
  apply_initial_heuristics C (db w) ev = Ok true →
  handle_transaction_async C ev w =
    if bool_decide (N C ≤ transaction_counter w + 1)
    then flush C [] (at_threshold C ev w)
    else (at_threshold C ev w, Ok []).
Proof.
  intros Hadm.
  pose proof (insert_event_returns ev (printed (Line "applying initial heuristics") w)) as Hret.
  pose proof (insert_event_keeps_counter ev (printed (Line "applying initial heuristics") w)) as Hc.
  unfold at_threshold.
  unfold handle_transaction_async, count_and_trigger, update_transaction_counter,
    mbind, M_bind, gets, lift, print, print_int, modify, mret, M_ret.
  simpl. rewrite Hadm. simpl.
  fold (printed (Line "applying initial heuristics") w).
  destruct (insert_event C ev (printed (Line "applying initial heuristics") w))
    as [w1 r1]. simpl in *. subst r1. simpl in Hc. rewrite Hc.
  destruct (bool_decide (N C ≤ transaction_counter w + 1)); reflexivity.
Qed.

Lemma handle_transaction_async_rejected ev w :
  apply_initial_heuristics C (db w) ev = Ok false →
  handle_transaction_async C ev w =
    (printed (Line "applying initial heuristics") w, Ok []).
Proof.
  intros Hadm.
  unfold handle_transaction_async, mbind, M_bind, gets, lift, print, modify,
    mret, M_ret.
  simpl. rewrite Hadm. reflexivity.
Qed.

Lemma handle_transaction_async_heuristics_raise ev w e :
  apply_initial_heuristics C (db w) ev = Raise e →
  handle_transaction_async C ev w =
    (printed (Line "applying initial heuristics") w, Raise e).
Proof.
  intros Hadm.
  unfold handle_transaction_async, mbind, M_bind, gets, lift, print, modify,
    mret, M_ret.
  simpl. rewrite Hadm. reflexivity.
Qed.

Lemma at_threshold_counter ev w :
  transaction_counter (at_threshold C ev w) = transaction_counter w + 1.
Proof.
  unfold at_threshold. simpl.
  rewrite (insert_event_keeps_counter ev). reflexivity.
Qed.

(** How a flush ends: with the exception of the pipeline, with the
    exception of the eviction, or with the findings and the counter at
    zero. *)
Lemma flush_outcome findings w :
  flush C findings w =
    match process_transactions C (printed (Line "processing transactions") w) with
    | (w1, Raise e) => (w1, Raise e)
    | (w1, Ok fs) =>
        match evicting C w1 with
        | (w2, Raise e) => (w2, Raise e)
        | (w2, Ok _) =>
            (printed (Line "ALL COMPLETE") (set_transaction_counter 0 w2),
             Ok (findings ++ fs)%list)
        end
    end.
Proof.
  unfold flush, mbind, M_bind, print, modify, mret, M_ret. simpl.
  fold (printed (Line "processing transactions") w).
  destruct (process_transactions C (printed (Line "processing transactions") w))
    as [w1 [fs|e]]; [| reflexivity].
  destruct (evicting C w1) as [w2 [[]|e]]; reflexivity.
Qed.

Lemma evicting_keeps_counter : keeps transaction_counter (evicting C).
Proof. unfold evicting. frame. Qed.

Lemma process_transactions_keeps_counter :
  keeps transaction_counter (process_transactions C).
Proof.
  unfold process_transactions, building, partitioning, merging, scoring,
    final_merging, previous_final_graph, serializing, persisting.
  frame.
Qed.

(** *** The pipeline, stage by stage *)

Lemma process_transactions_prepare w :
  process_transactions C w =
    ('(batch, final_graph) ← prepare C; persisting C batch final_graph) w.
Proof.
  unfold process_transactions, prepare, final_merged, analysis,
    mbind, M_bind, mret, M_ret.
  destruct (building C w) as [w1 [[batch subgraph]|e]]; [| reflexivity].
  destruct (partitioning C subgraph w1) as [w2 [updated|e]]; [| reflexivity].
  destruct (merging C w2) as [w3 [[]|e]]; [| reflexivity].
  destruct (scoring C updated w3) as [w4 [analyzed|e]]; [| reflexivity].
  destruct (final_merging C analyzed w4) as [w5 [final|e]]; [| reflexivity].
  destruct (serializing final w5) as [w6 [final'|e]]; reflexivity.
Qed.

Lemma analysis_keeps_final_graph_file : keeps final_graph_file (analysis C).
Proof. unfold analysis, building, partitioning, merging, scoring. frame. Qed.

Lemma analysis_keeps_is_initial_batch : keeps is_initial_batch (analysis C).
Proof. unfold analysis, building, partitioning, merging, scoring. frame. Qed.

Lemma analysis_keeps_db : keeps db (analysis C).
Proof. unfold analysis, building, partitioning, merging, scoring. frame. Qed.

Lemma final_merged_keeps_final_graph_file :
  keeps final_graph_file (final_merged C).
Proof.
  pose proof analysis_keeps_final_graph_file.
  unfold final_merged, final_merging, previous_final_graph. frame.
Qed.

Lemma final_merged_keeps_db : keeps db (final_merged C).
Proof.
  pose proof analysis_keeps_db.
  unfold final_merged, final_merging, previous_final_graph. frame.
Qed.

Lemma prepare_keeps_final_graph_file : keeps final_graph_file (prepare C).
Proof.
  pose proof final_merged_keeps_final_graph_file.
  unfold prepare, serializing. frame.
Qed.

Lemma prepare_keeps_db : keeps db (prepare C).
Proof.
  pose proof final_merged_keeps_db.
  unfold prepare, serializing. frame.
Qed.

(** Persisting, when it raises, has set no [processed] flag. *)
Lemma persisting_Raise batch final_graph w w' e :
  persisting C batch final_graph w = (w', Raise e) →
  transfers (db w') = transfers (db w).
Proof.
  unfold persisting, session_commit, on, mbind, M_bind, gets, lift, print,
    modify, mret, M_ret.
  destruct (save_graph C final_graph (final_graph_file w)) as [f [[]|e1]];
    simpl; [| intros [= <- _]; reflexivity].
  destruct (write_graph_to_database C final_graph (clusters (db w)))
    as [c [fs|e1]]; simpl; [| intros [= <- _]; reflexivity].
  destruct (commit_error C _) as [e1|]; simpl.
  - intros [= <- _]. reflexivity.
  - intros [=].
Qed.

(** Persisting, when it returns, has saved the final graph, marked the
    batch and emptied the list of pending edges. *)
Lemma persisting_Ok batch final_graph w w' fs :
  persisting C batch final_graph w = (w', Ok fs) →
  final_graph_file w' = (save_graph C final_graph (final_graph_file w)).1 ∧
  transfers (db w') = mark_processed batch (transfers (db w)) ∧
  global_added_edges w' = [] ∧
  is_initial_batch w' = is_initial_batch w.
Proof.
  unfold persisting, session_commit, on, mbind, M_bind, gets, lift, print,
    modify, mret, M_ret.
  destruct (save_graph C final_graph (final_graph_file w)) as [f [[]|e1]];
    simpl; [| intros [=]].
  destruct (write_graph_to_database C final_graph (clusters (db w)))
    as [c [fs1|e1]]; simpl; [| intros [=]].
  destruct (commit_error C _) as [e1|]; simpl.
  - intros [=].
  - intros [= <- _]. simpl. repeat split; reflexivity.
Qed.

(** The batch is the list of unprocessed transfers. *)
Lemma building_Ok w w' batch subgraph :
  building C w = (w', Ok (batch, subgraph)) →
  batch = unprocessed (transfers (db w)) ∧
  subgraph =
    edge_subgraph_digraph
      (subgraph_node_rank C (G1 w') (global_added_edges w'))
      (subgraph_edge_rank C (G1 w') (global_added_edges w'))
      (G1 w') (global_added_edges w') ∧
  ∃ g es,
    add_transactions_to_graph C batch (G1 w) = (g, Ok es) ∧
    global_added_edges w' = (global_added_edges w ++ es)%list ∧
    edge_keys (G1 w') =
      edge_keys (convert_decimal_to_float C
                   (adjust_edge_weights_and_variances C batch g).1).1.
Proof.
  unfold building, on, mbind, M_bind, gets, lift, print, print_int, modify,
    mret, M_ret. simpl.
  destruct (add_transactions_to_graph C _ (G1 w)) as [g [es|e]] eqn:Hb;
    simpl; [| intros [=]].
  destruct (adjust_edge_weights_and_variances C _ g) as [g1 [[]|e]] eqn:Ha;
    simpl; [| intros [=]].
  destruct (convert_decimal_to_float C g1) as [g2 [[]|e]] eqn:Hc;
    simpl; [| intros [=]].
  destruct (write_graphml C g2 (initial_global_graph_file w)) as [f [[]|e]];
    simpl; [| intros [=]].
  intros [= <- <- <-]. simpl. repeat split.
  exists g, es. repeat split.
  - exact Hb.
  - rewrite Ha. simpl. rewrite Hc. reflexivity.
Qed.

Lemma analysis_batch w w' batch analyzed :
  analysis C w = (w', Ok (batch, analyzed)) →
  batch = unprocessed (transfers (db w)).
Proof.
  unfold analysis. intros H.
  apply bind_Ok in H as (w1 & [b sg] & Hb & H).
  apply building_Ok in Hb as [-> _].
  apply bind_Ok in H as (w2 & up & _ & H).
  apply bind_Ok in H as (w3 & [] & _ & H).
  apply bind_Ok in H as (w4 & an & _ & H).
  injection H as _ -> _. reflexivity.
Qed.

Lemma final_merged_batch w w' batch final_graph :
  final_merged C w = (w', Ok (batch, final_graph)) →
  batch = unprocessed (transfers (db w)).
Proof.
  unfold final_merged. intros H.
  apply bind_Ok in H as (w1 & [b an] & Ha & H).
  apply analysis_batch in Ha as ->.
  apply bind_Ok in H as (w2 & fg & _ & H).
  injection H as _ -> _. reflexivity.
Qed.

Lemma prepare_batch w w' batch final_graph :
  prepare C w = (w', Ok (batch, final_graph)) →
  batch = unprocessed (transfers (db w)).
Proof.
  unfold prepare. intros H.
  apply bind_Ok in H as (w1 & [b fg] & Ha & H).
  apply final_merged_batch in Ha as ->.
  apply bind_Ok in H as (w3 & fg' & _ & H).
  injection H as _ -> _. reflexivity.
Qed.

(** Marking the unprocessed rows leaves no unprocessed row. *)
Lemma mark_processed_all ts :
  Forall (λ t, processed t = true) (mark_processed (unprocessed ts) ts).
Proof.
  unfold mark_processed. apply Forall_fmap, Forall_forall. intros t Ht. simpl.
  case_bool_decide as Hin; [reflexivity |].
  destruct (processed t) eqn:Hp; [reflexivity |].
  exfalso. apply Hin. apply list_elem_of_fmap. exists t. split; [reflexivity |].
  apply list_elem_of_filter. split; assumption.
Qed.

Lemma mark_processed_batch ts t :
  t ∈ unprocessed ts → set_processed t ∈ mark_processed (unprocessed ts) ts.
Proof.
  intros Ht. unfold mark_processed.
  apply list_elem_of_fmap. exists t. split.
  - rewrite bool_decide_eq_true_2; [reflexivity |].
    apply list_elem_of_fmap. exists t. split; [reflexivity | exact Ht].
  - apply list_elem_of_filter in Ht as [_ Ht]. exact Ht.
Qed.

Lemma unprocessed_nil ts :
  Forall (λ t, processed t = true) ts → unprocessed ts = [].
Proof.
  induction 1 as [| t ts Ht _ IH]; [reflexivity |].
  unfold unprocessed in *. rewrite filter_cons.
  destruct (decide (processed t = false)) as [Hf|_]; [congruence | exact IH].
Qed.

Lemma process_transactions_Ok w w' fs :
  process_transactions C w = (w', Ok fs) →
  transfers (db w') =
    mark_processed (unprocessed (transfers (db w))) (transfers (db w)) ∧
  global_added_edges w' = [].
Proof.
  rewrite process_transactions_prepare. intros H.
  apply bind_Ok in H as (w1 & [batch fg] & Hp & H).
  pose proof (prepare_keeps_db w) as Hdb. rewrite Hp in Hdb. simpl in Hdb.
  apply prepare_batch in Hp as ->.
  apply persisting_Ok in H as (_ & Ht & He & _).
  rewrite Ht, Hdb. split; [reflexivity | exact He].
Qed.

(** A run of the pipeline that raises has set no [processed] flag, and
    when it raises before Persisting it has left the database and the file
    of the final graph alone. *)
Lemma process_transactions_Raise w w' e :
  process_transactions C w = (w', Raise e) →
  transfers (db w') = transfers (db w) ∧
  ((prepare C w = (w', Raise e) ∧
    final_graph_file w' = final_graph_file w ∧ db w' = db w) ∨
   (∃ w1 batch final_graph,
      prepare C w = (w1, Ok (batch, final_graph)) ∧
      persisting C batch final_graph w1 = (w', Raise e))).
Proof.
  rewrite process_transactions_prepare. intros H.
  pose proof (prepare_keeps_db w) as Hdb.
  pose proof (prepare_keeps_final_graph_file w) as Hf.
  apply bind_Raise in H as [H | (w1 & [batch fg] & Hp & H)].
  - rewrite H in Hdb, Hf. simpl in *. rewrite Hdb. split; [reflexivity |].
    left. repeat split; assumption.
  - rewrite Hp in Hdb. simpl in Hdb.
    apply persisting_Raise in H as Ht. rewrite Ht, Hdb.
    split; [reflexivity |]. right. exists w1, batch, fg. split; assumption.
Qed.

Lemma insert_event_keeps_G2 ev : keeps G2 (insert_event C ev).
Proof. unfold insert_event, session_rollback. frame. Qed.

Lemma insert_event_keeps_final_graph_file ev :
  keeps final_graph_file (insert_event C ev).
Proof. unfold insert_event, session_rollback. frame. Qed.

Lemma at_flush_G2 ev w : G2 (at_flush C ev w) = G2 w.
Proof.
  unfold at_flush, at_threshold. simpl.
  rewrite (insert_event_keeps_G2 ev). reflexivity.
Qed.

Lemma at_flush_final_graph_file ev w :
  final_graph_file (at_flush C ev w) = final_graph_file w.
Proof.
  unfold at_flush, at_threshold. simpl.
  rewrite (insert_event_keeps_final_graph_file ev). reflexivity.
Qed.

Lemma at_flush_counter ev w :
  transaction_counter (at_flush C ev w) = transaction_counter w + 1.
Proof. unfold at_flush. simpl. apply at_threshold_counter. Qed.

(** The event that reaches the threshold runs the flush. *)
Lemma handle_transaction_async_flush ev w :
  apply_initial_heuristics C (db w) ev = Ok true →
  N C ≤ transaction_counter w + 1 →
  handle_transaction_async C ev w =
    match process_transactions C (at_flush C ev w) with
    | (w1, Raise e) => (w1, Raise e)
    | (w1, Ok fs) =>
        match evicting C w1 with
        | (w2, Raise e) => (w2, Raise e)
        | (w2, Ok _) =>
            (printed (Line "ALL COMPLETE") (set_transaction_counter 0 w2),
             Ok fs)
        end
    end.
Proof.
  intros Hadm HN. rewrite handle_transaction_async_admitted by exact Hadm.
  rewrite bool_decide_eq_true_2 by exact HN.
  rewrite flush_outcome. reflexivity.
Qed.

(** C1, as the code has it.  When the event [ev] triggers a flush and a
    stage of the pipeline raises [e], the handler raises [e] to its caller.
    The durable community graph is as it was before the event, the counter
    keeps the value it had when the flush began, and no transfer has been
    marked.  Either the stage that raised comes before the final graph is
    saved, and then the file of the final graph and the database are as
    they were when the flush began; or Persisting itself raised. *)
Theorem failed_batch_reaches_caller ev w w' e :
  apply_initial_heuristics C (db w) ev = Ok true →
  N C ≤ transaction_counter w + 1 →
  process_transactions C (at_flush C ev w) = (w', Raise e) →
  handle_transaction_async C ev w = (w', Raise e) ∧
  G2 w' = G2 w ∧
  transaction_counter w' = transaction_counter w + 1 ∧
  transfers (db w') = transfers (db (at_flush C ev w)) ∧
  ((prepare C (at_flush C ev w) = (w', Raise e) ∧
    final_graph_file w' = final_graph_file w ∧
    db w' = db (at_flush C ev w)) ∨
   (∃ w1 batch final_graph,
      prepare C (at_flush C ev w) = (w1, Ok (batch, final_graph)) ∧
      persisting C batch final_graph w1 = (w', Raise e))).
Proof.
  intros Hadm HN H.
  split. { rewrite handle_transaction_async_flush by assumption. rewrite H. reflexivity. }
  split. { pose proof (process_transactions_keeps_G2 (at_flush C ev w)) as HG.
           rewrite H in HG. simpl in HG. rewrite HG. apply at_flush_G2. }
  split. { pose proof (process_transactions_keeps_counter (at_flush C ev w)) as Hc.
           rewrite H in Hc. simpl in Hc. rewrite Hc. apply at_flush_counter. }
  apply process_transactions_Raise in H as [Ht Hcases].
  split; [exact Ht |].
  destruct Hcases as [(Hp & Hf & Hdb) | Hpers]; [left | right; exact Hpers].
  repeat split; try assumption. rewrite Hf. apply at_flush_final_graph_file.
Qed.

(** C3, as the code has it.  When the event [ev] triggers a flush, the
    counter is set to zero exactly when the pipeline and the eviction both
    return; when either of them raises, the handler raises too and the
    counter keeps the value it had when the flush began. *)
Theorem counter_reset_only_after_full_flush ev w :
  apply_initial_heuristics C (db w) ev = Ok true →
  N C ≤ transaction_counter w + 1 →
  match process_transactions C (at_flush C ev w) with
  | (w1, Raise e) =>
      handle_transaction_async C ev w = (w1, Raise e) ∧
      transaction_counter w1 = transaction_counter w + 1
  | (w1, Ok fs) =>
      match evicting C w1 with
      | (w2, Raise e) =>
          handle_transaction_async C ev w = (w2, Raise e) ∧
          transaction_counter w2 = transaction_counter w + 1
      | (w2, Ok _) =>
          (handle_transaction_async C ev w).2 = Ok fs ∧
          transaction_counter (handle_transaction_async C ev w).1 = 0
      end
  end.
Proof.
  intros Hadm HN. rewrite handle_transaction_async_flush by assumption.
  pose proof (process_transactions_keeps_counter (at_flush C ev w)) as Hc.
  rewrite at_flush_counter in Hc.
  destruct (process_transactions C (at_flush C ev w)) as [w1 [fs|e]];
    simpl in Hc; [| split; [reflexivity | exact Hc]].
  pose proof (evicting_keeps_counter w1) as Hc2.
  destruct (evicting C w1) as [w2 [[]|e]]; simpl in Hc2.
  - split; reflexivity.
  - split; [reflexivity | congruence].
Qed.

Lemma evicting_deletes_only w :
  eviction_deletes C →
  ∀ t, t ∈ transfers (db (evicting C w).1) → t ∈ transfers (db w).
Proof.
  intros Hdel t. unfold evicting, on, mbind, M_bind.
  destruct (shed_oldest_Transfers C (transfers (db w))) as [ts r] eqn:Hs.
  assert (Hsub : ∀ t, t ∈ ts → t ∈ transfers (db w)) by (eapply Hdel; exact Hs).
  destruct r as [[]|e]; simpl; [| apply Hsub].
  destruct (shed_oldest_ContractTransactions C _) as [cs r]. simpl. apply Hsub.
Qed.

(** C4, as the code has it.  When the pipeline of a flush has returned,
    every transfer of the batch is in the store with its flag set and no
    transfer is unprocessed, and this stays so through the eviction, which
    is taken to do nothing but delete rows.  The counter is zero only when
    the eviction returns as well: then the handler returns the findings.
    When the eviction raises, the handler raises and the counter keeps the
    value it had when the flush began. *)
Theorem flush_marks_batch_and_resets_counter ev w w1 fs :
  eviction_deletes C →
  apply_initial_heuristics C (db w) ev = Ok true →
  N C ≤ transaction_counter w + 1 →
  process_transactions C (at_flush C ev w) = (w1, Ok fs) →
  (∀ t, t ∈ unprocessed (transfers (db (at_flush C ev w))) →
        set_processed t ∈ transfers (db w1)) ∧
  unprocessed (transfers (db w1)) = [] ∧
  unprocessed (transfers (db (handle_transaction_async C ev w).1)) = [] ∧
  match evicting C w1 with
  | (w2, Ok _) =>
      handle_transaction_async C ev w =
        (printed (Line "ALL COMPLETE") (set_transaction_counter 0 w2), Ok fs) ∧
      transaction_counter (handle_transaction_async C ev w).1 = 0
  | (w2, Raise e) =>
      handle_transaction_async C ev w = (w2, Raise e) ∧
      transaction_counter (handle_transaction_async C ev w).1 =
        transaction_counter w + 1
  end.
Proof.
  intros Hdel Hadm HN Hp.
  rewrite handle_transaction_async_flush by assumption. rewrite Hp.
  pose proof (process_transactions_keeps_counter (at_flush C ev w)) as Hc.
  rewrite at_flush_counter, Hp in Hc. simpl in Hc.
  apply process_transactions_Ok in Hp as [Ht _].
  pose proof (mark_processed_all (transfers (db (at_flush C ev w)))) as Hall.
  rewrite <- Ht in Hall.
  pose proof (evicting_deletes_only w1 Hdel) as Hsub.
  pose proof (evicting_keeps_counter w1) as Hc2.
  assert (Hafter : unprocessed (transfers (db (evicting C w1).1)) = []).
  { apply unprocessed_nil, Forall_forall. intros t Hin.
    rewrite Forall_forall in Hall. apply Hall, Hsub, Hin. }
  split. { intros t Hin. rewrite Ht. apply mark_processed_batch. exact Hin. }
  split. { apply unprocessed_nil. exact Hall. }
  destruct (evicting C w1) as [w2 [[]|e]]; simpl in *.
  - split; [exact Hafter |]. split; reflexivity.
  - split; [exact Hafter |]. split; [reflexivity | congruence].
Qed.

(** C5.  When the event is admitted and the insert of its row fails with
    [e], the insert prints [e] and returns with the database as it was, and
    the handler goes on from there with the count and, when the threshold is
    reached, the flush. *)
Theorem insert_failure_contained ev w e :
  apply_initial_heuristics C (db w) ev = Ok true →
  insert_fails C ev (db w) e →
  let w0 := printed (Line "applying initial heuristics") w in
  let w1 := printed (LineExn "Unexpected error occurred: " e) w0 in
  insert_event C ev w0 = (w1, Ok tt) ∧
  db w1 = db w ∧
  handle_transaction_async C ev w = count_and_trigger C ev [] w1 ∧
  (N C ≤ transaction_counter w + 1 →
   handle_transaction_async C ev w = flush C [] (at_threshold C ev w)).
Proof.
  intros Hadm Hfail w0 w1.
  assert (Hins : insert_event C ev w0 = (w1, Ok tt))
    by (apply insert_event_failure; exact Hfail).
  split; [exact Hins |]. split; [reflexivity |]. split.
  - unfold handle_transaction_async, mbind, M_bind, gets, lift, print, modify,
      mret, M_ret. simpl. rewrite Hadm. simpl.
    fold (printed (Line "applying initial heuristics") w). fold w0.
    rewrite Hins. reflexivity.
  - intros HN. rewrite handle_transaction_async_admitted by exact Hadm.
    rewrite bool_decide_eq_true_2 by exact HN. reflexivity.
Qed.

(** C10.  When the event is admitted and the insert of its row fails, the
    counter that is compared with [N] is one more than before although the
    store holds the rows it held: the count grows by more than the rows
    do. *)
Theorem failed_insert_is_counted ev w e :
  apply_initial_heuristics C (db w) ev = Ok true →
  insert_fails C ev (db w) e →
  transaction_counter (at_threshold C ev w) = transaction_counter w + 1 ∧
  db (at_threshold C ev w) = db w ∧
  len (transfers (db (at_threshold C ev w))) - len (transfers (db w)) <
    transaction_counter (at_threshold C ev w) - transaction_counter w ∧
  handle_transaction_async C ev w =
    if bool_decide (N C ≤ transaction_counter w + 1)
    then flush C [] (at_threshold C ev w)
    else (at_threshold C ev w, Ok []).
Proof.
  intros Hadm Hfail.
  assert (Hdb : db (at_threshold C ev w) = db w).
  { unfold at_threshold. simpl.
    rewrite (insert_event_failure ev _ e) by exact Hfail. reflexivity. }
  split; [apply at_threshold_counter |]. split; [exact Hdb |]. split.
  - rewrite at_threshold_counter, Hdb. lia.
  - apply handle_transaction_async_admitted. exact Hadm.
Qed.

(** C6, as the code has it.  The final graph that the merge returned goes
    through the two loops.  When they return, the pipeline goes on to save
    the graph they produced, in which every value that was a class is the
    text [str] gives, every value that was a list is its JSON text, and
    every other value, scalar or not, is what it was; so that graph has
    only scalar attributes exactly when every attribute was a scalar, a
    class or a list.  When they raise, a list among the attributes is one
    that [json.dumps] rejects, and the pipeline raises the same exception
    with the file of the final graph and the database untouched. *)
Theorem final_graph_conversion w w1 batch final_graph :
  final_merged C w = (w1, Ok (batch, final_graph)) →
  match convert_attributes final_graph with
  | Ok converted =>
      process_transactions C w = persisting C batch converted w1 ∧
      graph_converted final_graph converted ∧
      all_scalar converted = forallb convertible (attribute_values final_graph)
  | Raise e =>
      process_transactions C w = (w1, Raise e) ∧
      final_graph_file w1 = final_graph_file w ∧
      db w1 = db w ∧
      ∃ l, VList l ∈ attribute_values final_graph ∧
           json_dumps (VList l) = Raise e
  end.
Proof.
  intros H.
  pose proof (final_merged_keeps_final_graph_file w) as Hf.
  pose proof (final_merged_keeps_db w) as Hdb.
  rewrite H in Hf, Hdb. simpl in Hf, Hdb.
  assert (Hrun : process_transactions C w =
            match convert_attributes final_graph with
            | Ok converted => persisting C batch converted w1
            | Raise e => (w1, Raise e)
            end).
  { rewrite process_transactions_prepare. unfold prepare.
    unfold mbind at 1. unfold M_bind at 1.
    unfold mbind at 1. unfold M_bind at 1. rewrite H.
    unfold serializing, lift, mbind, M_bind, mret, M_ret.
    destruct (convert_attributes final_graph); reflexivity. }
  destruct (convert_attributes final_graph) as [converted|e] eqn:Hconv.
  - split; [exact Hrun |].
    apply convert_attributes_Ok in Hconv.
    split; [exact Hconv | apply graph_converted_scalar; exact Hconv].
  - split; [exact Hrun |]. split; [exact Hf |]. split; [exact Hdb |].
    apply convert_attributes_Raise. exact Hconv.
Qed.

(** *** The flag of the first batch *)

Lemma process_transactions_analysis w :
  process_transactions C w =
    ('(batch, analyzed) ← analysis C;
     final_graph ← final_merging C analyzed;
     final_graph ← serializing final_graph;
     persisting C batch final_graph) w.
Proof.
  unfold process_transactions, analysis, mbind, M_bind, mret, M_ret.
  destruct (building C w) as [w1 [[batch subgraph]|e]]; [| reflexivity].
  destruct (partitioning C subgraph w1) as [w2 [updated|e]]; [| reflexivity].
  destruct (merging C w2) as [w3 [[]|e]]; [| reflexivity].
  destruct (scoring C updated w3) as [w4 [analyzed|e]]; reflexivity.
Qed.

Lemma previous_final_graph_clears w :
  is_initial_batch (previous_final_graph C w).1 = false.
Proof.
  unfold previous_final_graph, mbind, M_bind, gets, lift, modify, mret, M_ret.
  simpl. destruct (is_initial_batch w) eqn:Hw; simpl; [reflexivity |].
  destruct (load_graph C (final_graph_file w)); exact Hw.
Qed.

Lemma after_analysis_flag_cleared batch analyzed w :
  is_initial_batch
    ((final_graph ← final_merging C analyzed;
      final_graph ← serializing final_graph;
      persisting C batch final_graph) w).1 = false.
Proof.
  assert (Hfm : is_initial_batch (final_merging C analyzed w).1 = false).
  { unfold final_merging, mbind, M_bind, lift.
    pose proof (previous_final_graph_clears w) as Hc.
    destruct (previous_final_graph C w) as [w1 [g|e]]; simpl in *; exact Hc. }
  assert (Hrest : ∀ fg, stays (λ w, is_initial_batch w = false)
            (final_graph ← serializing fg; persisting C batch final_graph)).
  { intros fg. apply (stays_keeps is_initial_batch (λ b, b = false)).
    unfold serializing, persisting. frame. }
  unfold mbind at 1. unfold M_bind at 1.
  destruct (final_merging C analyzed w) as [w1 [fg|e]]; simpl in Hfm;
    [| exact Hfm].
  apply (Hrest fg w1 Hfm).
Qed.

Lemma previous_final_graph_flag :
  stays (λ w, is_initial_batch w = false) (previous_final_graph C).
Proof.
  intros w Hw. unfold previous_final_graph, mbind, M_bind, gets, lift, modify,
    mret, M_ret. simpl. rewrite Hw. simpl.
  destruct (load_graph C (final_graph_file w)); exact Hw.
Qed.

Lemma process_transactions_flag :
  stays (λ w, is_initial_batch w = false) (process_transactions C).
Proof.
  pose proof previous_final_graph_flag.
  unfold process_transactions, final_merging.
  repeat first
    [ assumption
    | apply (stays_keeps is_initial_batch (λ b, b = false));
      solve [unfold building, partitioning, merging, scoring, serializing,
               persisting; frame]
    | apply stays_bind; [ | intros ? ]
    | match goal with
      | |- stays _ (let '(_, _) := ?p in _) => destruct p
      end ].
Qed.

Lemma handle_transaction_flag ev :
  stays (λ w, is_initial_batch w = false) (handle_transaction C ev).
Proof.
  pose proof process_transactions_flag.
  unfold handle_transaction, handle_transaction_async, count_and_trigger, flush.
  repeat first
    [ assumption
    | apply (stays_keeps is_initial_batch (λ b, b = false));
      solve [unfold ensure_graph_initialized, insert_event, evicting,
               update_transaction_counter, session_rollback; frame]
    | apply stays_bind; [ | intros ? ]
    | match goal with
      | |- stays _ (if ?b then _ else _) => destruct b
      end ].
Qed.

(** While the flag is set after a run of the pipeline, the run has not
    come as far as the final merge, and the file of the final graph is as
    it was. *)
Lemma process_transactions_flag_set w :
  is_initial_batch (process_transactions C w).1 = true →
  final_graph_file (process_transactions C w).1 = final_graph_file w.
Proof.
  rewrite process_transactions_analysis.
  pose proof (analysis_keeps_final_graph_file w) as Hf.
  destruct (analysis C w) as [w1 [[batch analyzed]|e]] eqn:Ha; simpl in Hf.
  - rewrite (bind_of_Ok _ _ _ _ _ Ha).
    rewrite after_analysis_flag_cleared. discriminate.
  - rewrite (bind_of_Raise _ _ _ _ _ Ha). intros _. exact Hf.
Qed.

Lemma handle_transaction_flag_set ev w :
  is_initial_batch (handle_transaction C ev w).1 = true →
  final_graph_file (handle_transaction C ev w).1 = final_graph_file w.
Proof.
  assert (K : keeps (λ w, (is_initial_batch w, final_graph_file w))
                (ensure_graph_initialized C))
    by (unfold ensure_graph_initialized; frame).
  assert (Ki : keeps (λ w, (is_initial_batch w, final_graph_file w))
                 (insert_event C ev))
    by (unfold insert_event, session_rollback; frame).
  assert (Ke : keeps (λ w, (is_initial_batch w, final_graph_file w))
                 (evicting C))
    by (unfold evicting; frame).
  unfold handle_transaction, mbind, M_bind.
  specialize (K w).
  destruct (ensure_graph_initialized C w) as [w0 [[]|e]]; simpl in K;
    injection K as Kb Kf; [| intros _; exact Kf].
  rewrite <- Kf. clear Kb Kf w.
  destruct (apply_initial_heuristics C (db w0) ev) as [[|]|e] eqn:Hadm.
  - rewrite handle_transaction_async_admitted by exact Hadm.
    assert (Hat : is_initial_batch (at_threshold C ev w0) = is_initial_batch w0 ∧
                  final_graph_file (at_threshold C ev w0) = final_graph_file w0).
    { unfold at_threshold. simpl.
      specialize (Ki (printed (Line "applying initial heuristics") w0)).
      injection Ki as Kb Kf. split; assumption. }
    destruct Hat as [Hb Hf].
    destruct (bool_decide (N C ≤ transaction_counter w0 + 1));
      [| intros _; exact Hf].
    rewrite flush_outcome.
    pose proof (process_transactions_flag_set
                  (printed (Line "processing transactions") (at_threshold C ev w0)))
      as Hp.
    destruct (process_transactions C _) as [w1 [fs|e]]; simpl in Hp.
    + specialize (Ke w1).
      destruct (evicting C w1) as [w2 [[]|e]]; simpl in *;
        injection Ke as Kb Kf; rewrite Kb, Kf; intros H;
        (etrans; [exact (Hp H) | exact Hf]).
    + simpl. intros H. etrans; [exact (Hp H) | exact Hf].
  - rewrite handle_transaction_async_rejected by exact Hadm. reflexivity.
  - rewrite (handle_transaction_async_heuristics_raise _ _ e) by exact Hadm.
    reflexivity.
Qed.

(** C7, as the code has it.  In a batch whose stages up to the analysis
    have returned, [process_transactions] picks the graph the final merge
    starts from by the flag [is_initial_batch] alone.  With the flag set it
    starts from the empty graph without looking at the file and clears the
    flag at once, before the merge, the conversion and the saving; with the
    flag cleared it starts from what [load_graph] makes of the file as it
    was when the batch began, and raises what [load_graph] raises.  The
    flag is cleared when the run ends and no event sets it again; as long
    as it is still set after an event, the event has not saved a final
    graph; and a run that returns leaves in the file what [save_graph]
    wrote for the converted result of the merge. *)
Theorem final_merge_starts_from w w1 batch analyzed :
  analysis C w = (w1, Ok (batch, analyzed)) →
  process_transactions C w =
    (if is_initial_batch w then
       match merge_final_graphs C analyzed empty_graph with
       | Ok final_graph =>
           after_final_merge C batch final_graph (set_is_initial_batch false w1)
       | Raise e => (set_is_initial_batch false w1, Raise e)
       end
     else
       match load_graph C (final_graph_file w) with
       | Ok previous =>
           match merge_final_graphs C analyzed previous with
           | Ok final_graph => after_final_merge C batch final_graph w1
           | Raise e => (w1, Raise e)
           end
       | Raise e => (w1, Raise e)
       end) ∧
  is_initial_batch (process_transactions C w).1 = false ∧
  (∀ ev w2, is_initial_batch w2 = false →
            is_initial_batch (handle_transaction C ev w2).1 = false) ∧
  (∀ ev w2, is_initial_batch (handle_transaction C ev w2).1 = true →
            final_graph_file (handle_transaction C ev w2).1 = final_graph_file w2) ∧
  (∀ w' fs, process_transactions C w = (w', Ok fs) →
     ∃ previous final_graph converted,
       (if is_initial_batch w then previous = empty_graph
        else load_graph C (final_graph_file w) = Ok previous) ∧
       merge_final_graphs C analyzed previous = Ok final_graph ∧
       convert_attributes final_graph = Ok converted ∧
       final_graph_file w' = (save_graph C converted (final_graph_file w)).1).
Proof.
  intros H.
  pose proof (analysis_keeps_final_graph_file w) as Hf.
  pose proof (analysis_keeps_is_initial_batch w) as Hi.
  rewrite H in Hf, Hi. simpl in Hf, Hi.
  assert (Heq : process_transactions C w =
    (if is_initial_batch w then
       match merge_final_graphs C analyzed empty_graph with
       | Ok final_graph =>
           after_final_merge C batch final_graph (set_is_initial_batch false w1)
       | Raise e => (set_is_initial_batch false w1, Raise e)
       end
     else
       match load_graph C (final_graph_file w) with
       | Ok previous =>
           match merge_final_graphs C analyzed previous with
           | Ok final_graph => after_final_merge C batch final_graph w1
           | Raise e => (w1, Raise e)
           end
       | Raise e => (w1, Raise e)
       end)).
  { rewrite process_transactions_analysis, (bind_of_Ok _ _ _ _ _ H).
    unfold after_final_merge, final_merging, previous_final_graph, mbind,
      M_bind, gets, lift, modify, mret, M_ret. simpl. rewrite Hi.
    destruct (is_initial_batch w); simpl.
    - destruct (merge_final_graphs C analyzed empty_graph); reflexivity.
    - rewrite Hf. destruct (load_graph C (final_graph_file w)) as [g|e];
        [| reflexivity].
      destruct (merge_final_graphs C analyzed g); reflexivity. }
  split; [exact Heq |]. split; [| split; [| split]].
  - rewrite process_transactions_analysis, (bind_of_Ok _ _ _ _ _ H).
    apply after_analysis_flag_cleared.
  - intros ev w2. apply handle_transaction_flag.
  - intros ev w2. apply handle_transaction_flag_set.
  - intros w' fs Hrun. rewrite Heq in Hrun.
    assert (Hsave : ∀ final_graph w0,
              final_graph_file w0 = final_graph_file w →
              after_final_merge C batch final_graph w0 = (w', Ok fs) →
              ∃ converted, convert_attributes final_graph = Ok converted ∧
                final_graph_file w' =
                  (save_graph C converted (final_graph_file w)).1).
    { intros fg w0 Hw0 Hafter. unfold after_final_merge in Hafter.
      apply bind_Ok in Hafter as (w3 & converted & Hser & Hpers).
      unfold serializing, lift in Hser. injection Hser as <- Hconv.
      apply persisting_Ok in Hpers as (Hfile & _).
      exists converted. split; [exact Hconv |]. rewrite Hfile, Hw0. reflexivity. }
    destruct (is_initial_batch w).
    + destruct (merge_final_graphs C analyzed empty_graph) as [fg|e] eqn:Hm;
        [| discriminate].
      apply Hsave in Hrun as (converted & Hconv & Hfile); [| exact Hf].
      exists empty_graph, fg, converted. repeat split; assumption.
    + destruct (load_graph C (final_graph_file w)) as [g|e] eqn:Hl;
        [| discriminate].
      destruct (merge_final_graphs C analyzed g) as [fg|e] eqn:Hm;
        [| discriminate].
      apply Hsave in Hrun as (converted & Hconv & Hfile); [| exact Hf].
      exists g, fg, converted. repeat split; assumption.
Qed.

(** *** Pending edges belong to unprocessed transfers *)

Section Pending.

Hypothesis builder : GraphBuilder_contract C.
Hypothesis appends : insert_appends C.

(** Building leaves the store alone and adds to the pending edges only
    edges of the batch. *)
Lemma building_pending w :
  transfers (db (building C w).1) = transfers (db w) ∧
  ∀ e, e ∈ global_added_edges (building C w).1 →
       e ∈ global_added_edges w ∨
       e ∈ transfer_edge <$> unprocessed (transfers (db w)).
Proof.
  unfold building, on, mbind, M_bind, gets, lift, print, print_int, modify,
    mret, M_ret. simpl.
  destruct (add_transactions_to_graph C _ (G1 w)) as [g [es|e]] eqn:Hb;
    simpl; [| split; [reflexivity | intros e' He'; left; exact He']].
  assert (Hes : ∀ e, e ∈ (global_added_edges w ++ es)%list →
            e ∈ global_added_edges w ∨
            e ∈ transfer_edge <$> unprocessed (transfers (db w))).
  { intros e He. apply elem_of_app in He as [He | He]; [left; exact He |].
    right. apply (proj1 (builder_returns_touched C builder _ _ _ _ Hb e)).
    exact He. }
  destruct (adjust_edge_weights_and_variances C _ g) as [g1 [[]|e]];
    simpl; [| split; [reflexivity | exact Hes]].
  destruct (convert_decimal_to_float C g1) as [g2 [[]|e]];
    simpl; [| split; [reflexivity | exact Hes]].
  destruct (write_graphml C g2 (initial_global_graph_file w)) as [f [[]|e]];
    simpl; split; first [reflexivity | exact Hes].
Qed.

Lemma building_stays_pending : stays pending_edges_unprocessed (building C).
Proof.
  intros w Hw e He. destruct (building_pending w) as [Ht Hin].
  rewrite Ht. destruct (Hin e He) as [H | H]; [apply Hw; exact H | exact H].
Qed.

Lemma persisting_stays_pending batch final_graph :
  stays pending_edges_unprocessed (persisting C batch final_graph).
Proof.
  intros w Hw. unfold persisting, session_commit, on, mbind, M_bind, gets, lift,
    print, modify, mret, M_ret.
  destruct (save_graph C final_graph (final_graph_file w)) as [f [[]|e1]];
    simpl; [| exact Hw].
  destruct (write_graph_to_database C final_graph (clusters (db w)))
    as [c [fs|e1]]; simpl; [| exact Hw].
  destruct (commit_error C _) as [e1|]; simpl; [exact Hw |].
  intros e He. simpl in He. inversion He.
Qed.

Lemma process_transactions_stays_pending :
  stays pending_edges_unprocessed (process_transactions C).
Proof.
  pose proof building_stays_pending.
  pose proof persisting_stays_pending.
  unfold process_transactions.
  repeat first
    [ solve [auto]
    | apply (stays_keeps (λ w, (global_added_edges w, transfers (db w)))
               (λ p, ∀ e, e ∈ p.1 → e ∈ transfer_edge <$> unprocessed p.2));
      solve [unfold partitioning, merging, scoring, final_merging,
               previous_final_graph, serializing; frame]
    | apply stays_bind; [ | intros ? ]
    | match goal with
      | |- stays _ (let '(_, _) := ?p in _) => destruct p
      end ].
Qed.

Lemma insert_event_stays_pending ev :
  stays pending_edges_unprocessed (insert_event C ev).
Proof.
  intros w Hw. unfold insert_event, try_except, session_commit,
    session_rollback, mbind, M_bind, gets, lift, print, print_exn, modify,
    mret, M_ret.
  destruct (add_transaction_to_db C ev (db w)) as [pending|e] eqn:Hadd; simpl;
    [| exact Hw].
  destruct (commit_error C pending); simpl; [exact Hw |].
  intros e He. simpl in He. apply Hw in He.
  apply list_elem_of_fmap in He as (t & -> & Ht).
  apply list_elem_of_fmap. exists t. split; [reflexivity |].
  apply list_elem_of_filter in Ht as [Hp Ht].
  apply list_elem_of_filter. split; [exact Hp |].
  eapply appends; [exact Hadd | exact Ht].
Qed.

Lemma evicting_keeps_pending_edges : keeps global_added_edges (evicting C).
Proof. unfold evicting. frame. Qed.

Lemma flush_stays_pending findings :
  stays pending_edges_unprocessed (flush C findings).
Proof.
  intros w Hw. rewrite flush_outcome.
  assert (Hp : pending_edges_unprocessed (printed (Line "processing transactions") w))
    by exact Hw.
  apply process_transactions_stays_pending in Hp.
  destruct (process_transactions C (printed (Line "processing transactions") w))
    as [w1 [fs|e]] eqn:Hrun; simpl in *; [| exact Hp].
  apply process_transactions_Ok in Hrun as [_ Hnil].
  pose proof (evicting_keeps_pending_edges w1) as Hev.
  destruct (evicting C w1) as [w2 [[]|e]]; simpl in *;
    intros e' He'; simpl in He'; rewrite Hev, Hnil in He'; inversion He'.
Qed.

Lemma handle_transaction_async_stays_pending ev :
  stays pending_edges_unprocessed (handle_transaction_async C ev).
Proof.
  pose proof (insert_event_stays_pending ev).
  pose proof (flush_stays_pending []).
  unfold handle_transaction_async, count_and_trigger.
  repeat first
    [ solve [auto]
    | apply (stays_keeps (λ w, (global_added_edges w, transfers (db w)))
               (λ p, ∀ e, e ∈ p.1 → e ∈ transfer_edge <$> unprocessed p.2));
      solve [unfold update_transaction_counter; frame]
    | apply stays_bind; [ | intros ? ]
    | match goal with
      | |- stays _ (if ?b then _ else _) => destruct b
      end ].
Qed.

Lemma reachable_pending w : reachable C w → pending_edges_unprocessed w.
Proof.
  induction 1 as [w (_ & _ & Hnil) | w _ IH | w ev _ IH].
  - intros e He. rewrite Hnil in He. inversion He.
  - assert (Hs : stays pending_edges_unprocessed (ensure_graph_initialized C)).
    { apply (stays_keeps (λ w, (global_added_edges w, transfers (db w)))
               (λ p, ∀ e, e ∈ p.1 → e ∈ transfer_edge <$> unprocessed p.2)).
      unfold ensure_graph_initialized. frame. }
    exact (Hs w IH).
  - apply handle_transaction_async_stays_pending. exact IH.
Qed.

Lemma at_flush_pending ev w :
  pending_edges_unprocessed w → pending_edges_unprocessed (at_flush C ev w).
Proof.
  intros Hw. unfold at_flush, at_threshold.
  apply (insert_event_stays_pending ev
           (printed (Line "applying initial heuristics") w)) in Hw.
  exact Hw.
Qed.

End Pending.

(** Once Building has returned, the pipeline runs the partitioner on the
    subgraph that Building made. *)
Lemma process_transactions_after_building w w' batch subgraph :
  building C w = (w', Ok (batch, subgraph)) →
  process_transactions C w =
    match run_algorithm C subgraph with
    | Ok subgraph_partitions =>
        after_run_algorithm C batch subgraph subgraph_partitions w'
    | Raise e => (w', Raise e)
    end.
Proof.
  intros Hb. unfold process_transactions.
  rewrite (bind_of_Ok _ _ _ _ _ Hb).
  unfold after_run_algorithm, after_partitioning, after_scoring,
    after_final_merge, partitioning.
  unfold mbind at 1. unfold M_bind at 1.
  unfold mbind at 1. unfold M_bind at 1.
  unfold lift at 1.
  destruct (run_algorithm C subgraph) as [parts|e]; [| reflexivity].
  unfold mbind, M_bind, lift, mret, M_ret.
  destruct (process_partitions C parts subgraph) as [updated|e]; [| reflexivity].
  destruct (on updated_subgraph_file set_updated_subgraph_file
              (write_graphml C updated) w') as [w2 [[]|e]]; reflexivity.
Qed.

(** C8.  Let the builder return exactly the edges its transfers lie on and
    let inserts only add rows.  Then in every batch, started from a world
    the agent can reach, whatever batches came before and however they
    ended, the batch is the list of unprocessed transfers, the builder has
    returned exactly the edges these transfers lie on, the subgraph made of
    the pending edges has exactly those edges, and only end points of such
    edges as nodes, and [process_transactions] runs [run_algorithm] on that
    subgraph and goes on with the partitions it returns. *)
Theorem batch_subgraph_has_touched_edges ev w w' batch subgraph :
  GraphBuilder_contract C →
  insert_appends C →
  reachable C w →
  building C (at_flush C ev w) = (w', Ok (batch, subgraph)) →
  batch = unprocessed (transfers (db (at_flush C ev w))) ∧
  (∃ g es,
     add_transactions_to_graph C batch (G1 (at_flush C ev w)) = (g, Ok es) ∧
     ∀ e, e ∈ es ↔ e ∈ transfer_edge <$> batch) ∧
  (∀ e, e ∈ edge_keys subgraph ↔ e ∈ transfer_edge <$> batch) ∧
  (∀ n, n ∈ node_keys subgraph →
        ∃ e, e ∈ transfer_edge <$> batch ∧ (n = e.1 ∨ n = e.2)) ∧
  process_transactions C (at_flush C ev w) =
    match run_algorithm C subgraph with
    | Ok subgraph_partitions =>
        after_run_algorithm C batch subgraph subgraph_partitions w'
    | Raise e => (w', Raise e)
    end.
Proof.
  intros builder appends Hreach Hbuild.
  pose proof (process_transactions_after_building _ _ _ _ Hbuild) as Hrun.
  pose proof (at_flush_pending appends ev w (reachable_pending builder appends w Hreach))
    as Hpend.
  apply building_Ok in Hbuild as (Hbatch & Hsub & g & es & Hb & Hgae & Hkeys).
  subst batch.
  set (batch := unprocessed (transfers (db (at_flush C ev w)))) in *.
  assert (HG1 : edge_keys (G1 w') = edge_keys g).
  { rewrite Hkeys.
    destruct (adjust_edge_weights_and_variances C batch g) as [g1 r1] eqn:Ha.
    simpl. destruct (convert_decimal_to_float C g1) as [g2 r2] eqn:Hc. simpl.
    rewrite (convert_keeps_edges C builder _ _ _ Hc).
    apply (adjust_keeps_edges C builder _ _ _ _ Ha). }
  assert (Hall : ∀ e, e ∈ global_added_edges w' → e ∈ transfer_edge <$> batch).
  { intros e He. rewrite Hgae in He. apply elem_of_app in He as [He | He].
    - apply Hpend. exact He.
    - apply (proj1 (builder_returns_touched C builder _ _ _ _ Hb e)).
      exact He. }
  split; [reflexivity |]. split; [| split; [| split; [| exact Hrun]]].
  - exists g, es. split; [exact Hb |].
    exact (builder_returns_touched C builder _ _ _ _ Hb).
  - intros e. rewrite Hsub, edge_subgraph_edge_keys. split.
    + intros [_ He]. apply Hall. exact He.
    + intros He.
      assert (Hes : e ∈ es)
        by (apply (proj2 (builder_returns_touched C builder _ _ _ _ Hb e));
            exact He).
      split.
      * rewrite HG1. exact (builder_adds_edges C builder _ _ _ _ Hb e Hes).
      * rewrite Hgae. apply elem_of_app. right. exact Hes.
  - intros n Hn. rewrite Hsub in Hn.
    apply edge_subgraph_node_keys, endpoints_elem in Hn as (e & He & Hn).
    exists e. split; [apply Hall; exact He | exact Hn].
Qed.

(** Handling an event through [handle_transaction] goes through worlds
    that are reachable. *)
Lemma reachable_handle_transaction ev w :
  reachable C w → reachable C (handle_transaction C ev w).1.
Proof.
  intros Hw. unfold handle_transaction, mbind, M_bind.
  pose proof (reachable_initialized C w Hw) as Hi.
  destruct (ensure_graph_initialized C w) as [w1 [[]|e]]; simpl in *.
  - apply reachable_handled. exact Hi.
  - exact Hi.
Qed.

Lemma reachable_run evs w : reachable C w → reachable C (run C evs w).
Proof.
  revert w. induction evs as [| ev evs IH]; intros w Hw; [exact Hw |].
  simpl. apply IH, reachable_handle_transaction. exact Hw.
Qed.

Lemma reachable_handle_each evs w :
  reachable C w → reachable C (handle_each C evs w).
Proof.
  revert w. induction evs as [| ev evs IH]; intros w Hw; [exact Hw |].
  simpl. apply IH, reachable_handled. exact Hw.
Qed.

(** C2, as the code has it.  Handling an event, with or without a flush and
    whether or not it raises, leaves the durable community graph [G2]
    exactly as it was, and so does every run of [process_transactions]:
    nothing is folded into it and no community in it is deleted or split.
    In a batch whose subgraph has been partitioned, what is left of the
    merging stage writes the graph [G2], as it was when the batch began, to
    the file of the merged graph, and [analyze_communities] is then given
    the partitioned subgraph of the batch; the pipeline goes on with what
    it returns. *)
Theorem durable_community_graph_untouched :
  (∀ ev w, G2 (handle_transaction C ev w).1 = G2 w) ∧
  (∀ w, G2 (process_transactions C w).1 = G2 w) ∧
  (∀ w w1 batch subgraph w2 updated_subgraph,
     building C w = (w1, Ok (batch, subgraph)) →
     partitioning C subgraph w1 = (w2, Ok updated_subgraph) →
     let snapshot := write_graphml C (G2 w) (merged_G2_graph_file w) in
     let w3 := set_merged_G2_graph_file snapshot.1 w2 in
     let w4 := printed (Line "analyzing clusters for suspicious activity") w3 in
     (∃ subgraph_partitions,
        run_algorithm C subgraph = Ok subgraph_partitions ∧
        process_partitions C subgraph_partitions subgraph = Ok updated_subgraph) ∧
     merging C w2 = (w3, snapshot.2) ∧
     process_transactions C w =
       match snapshot.2 with
       | Raise e => (w3, Raise e)
       | Ok _ =>
           match analyze_communities C (db w) updated_subgraph with
           | Raise e => (w4, Raise e)
           | Ok r => after_scoring C batch (or_empty_list r) w4
           end
       end).
Proof.
  split; [| split; [exact process_transactions_keeps_G2 |]].
  { intros ev. change (keeps G2 (handle_transaction C ev)).
    pose proof process_transactions_keeps_G2.
    unfold handle_transaction, ensure_graph_initialized,
      handle_transaction_async, insert_event, count_and_trigger, flush,
      evicting, update_transaction_counter, session_rollback.
    frame. }
  intros w w1 batch subgraph w2 updated Hb Hp snapshot w3 w4.
  assert (Kb : keeps (λ w, (G2 w, merged_G2_graph_file w, db w)) (building C))
    by (unfold building; frame).
  assert (Kp : keeps (λ w, (G2 w, merged_G2_graph_file w, db w))
                 (partitioning C subgraph))
    by (unfold partitioning; frame).
  specialize (Kb w). specialize (Kp w1). rewrite Hb in Kb. rewrite Hp in Kp.
  simpl in Kb, Kp. rewrite Kb in Kp. injection Kp as HG2 Hfile Hdb.
  assert (Hm : merging C w2 = (w3, snapshot.2)).
  { unfold merging, on, mbind, M_bind, gets. simpl.
    rewrite HG2, Hfile. subst w3 snapshot.
    destruct (write_graphml C (G2 w) (merged_G2_graph_file w)); reflexivity. }
  split; [| split; [exact Hm |]].
  - unfold partitioning in Hp.
    apply bind_Ok in Hp as (w5 & parts & Hrun & Hp).
    apply bind_Ok in Hp as (w6 & up & Hpp & Hp).
    apply bind_Ok in Hp as (w7 & [] & _ & Hp).
    unfold lift in Hrun, Hpp. unfold mret, M_ret in Hp.
    injection Hrun as _ Hrun. injection Hpp as _ Hpp. injection Hp as _ <-.
    exists parts. split; assumption.
  - unfold process_transactions.
    rewrite (bind_of_Ok _ _ _ _ _ Hb).
    rewrite (bind_of_Ok _ _ _ _ _ Hp).
    unfold mbind at 1. unfold M_bind at 1. rewrite Hm.
    destruct snapshot.2 as [[]|e]; [| reflexivity].
    unfold after_scoring, after_final_merge, scoring.
    unfold mbind, M_bind, gets, lift, print, modify, mret, M_ret. simpl.
    fold (printed (Line "analyzing clusters for suspicious activity") w3).
    fold w4. rewrite Hdb.
    destruct (analyze_communities C (db w) updated); reflexivity.
Qed.

End AgentFacts.

(** C2, as stated, fails.  In the scenario of the specification the third
    event triggers a flush that succeeds; the batch's communities cover the
    nodes A, B and C, and the durable community graph is as empty after the
    flush as it was before: the batch was not folded into it. *)
Lemma batch_not_folded_into_G2 :
  ∃ batch,
    let out := handle_transaction Demo.collaborators Demo.ev3 Demo.after_two in
    is_ok out.2 = true ∧
    updated_subgraph_file out.1 = Some batch ∧
    ¬ folded_into batch (G2 out.1).
Proof.
  eexists. cbn zeta. split; [vm_compute; reflexivity |].
  split; [vm_compute; reflexivity |].
  intros [Hn _]. specialize (Hn "A").
  vm_compute in Hn.
  assert (H : "A" ∈ ["A"; "B"; "C"]) by (apply list_elem_of_here).
  specialize (Hn H). inversion Hn.
Qed.

(** ** The migration *)

Section MigrationFacts.

Import Migration.

(** The run of [upgrade], directive by directive. *)
Lemma upgrade_run engine accepted :
  let eoas_id := mkAlterColumn "eoas" "id" (VARCHAR 36) Integer false true in
  let clusters_id :=
    mkAlterColumn "suspicious_clusters" "id" (VARCHAR 36) Integer false true in
  upgrade engine accepted =
    match engine accepted eoas_id with
    | Some e => (accepted, Raise e)
    | None =>
        match engine (accepted ++ [eoas_id])%list clusters_id with
        | Some e => ((accepted ++ [eoas_id])%list, Raise e)
        | None => ((accepted ++ [eoas_id; clusters_id])%list, Ok tt)
        end
    end.
Proof.
  unfold upgrade, alter_column. cbn zeta.
  destruct (engine accepted _) as [e|]; [reflexivity |].
  destruct (engine _ _) as [e|]; [reflexivity |].
  rewrite <- app_assoc. reflexivity.
Qed.

Lemma alters_names_key ds t c :
  Forall (λ d, names_key (op_table d) (op_column d) = true) ds →
  alters ds t c = true → names_key t c = true.
Proof.
  unfold alters. intros Hds H. apply existsb_exists in H as (d & Hin & H).
  apply andb_prop in H as [Ht Hc].
  apply bool_decide_eq_true in Ht as <-. apply bool_decide_eq_true in Hc as <-.
  rewrite Forall_forall in Hds. apply Hds, list_elem_of_In, Hin.
Qed.

Lemma carries_references_false ds s r :
  r ∈ cross_references s →
  alters ds r.2.1 r.2.2 = true → alters ds r.1.1 r.1.2 = false →
  carries_references ds s = false.
Proof.
  intros Hin Hkey Href. unfold carries_references.
  apply not_true_is_false. intros Hall.
  rewrite forallb_forall in Hall.
  specialize (Hall r (proj1 (list_elem_of_In _ _) Hin)).
  rewrite Hkey, Href in Hall. discriminate.
Qed.

(** C9, as the code has it.  Whatever the database accepts, the upgrade
    issues at most two directives, in this order: the [id] column of [eoas]
    and then the [id] column of [suspicious_clusters], each from
    [VARCHAR(36)] to [Integer]; the second one only when the database has
    accepted the first, and both exactly when the upgrade returns.  It
    names no other column.  So a column that is not one of the two keys and
    refers to a key the upgrade has altered is left out: the upgrade does
    not carry the cross-references of such a schema along. *)
Theorem upgrade_alters_keys_only engine accepted :
  let eoas_id := mkAlterColumn "eoas" "id" (VARCHAR 36) Integer false true in
  let clusters_id :=
    mkAlterColumn "suspicious_clusters" "id" (VARCHAR 36) Integer false true in
  ∃ issued,
    upgrade engine accepted =
      match engine accepted eoas_id with
      | Some e => (accepted, Raise e)
      | None =>
          match engine (accepted ++ [eoas_id])%list clusters_id with
          | Some e => ((accepted ++ [eoas_id])%list, Raise e)
          | None => ((accepted ++ [eoas_id; clusters_id])%list, Ok tt)
          end
      end ∧
    (upgrade engine accepted).1 = (accepted ++ issued)%list ∧
    issued `prefix_of` [eoas_id; clusters_id] ∧
    ((upgrade engine accepted).2 = Ok tt ↔ issued = [eoas_id; clusters_id]) ∧
    (∀ t c, alters issued t c = true → names_key t c = true) ∧
    (∀ s r, r ∈ cross_references s →
            alters issued r.2.1 r.2.2 = true →
            names_key r.1.1 r.1.2 = false →
            carries_references issued s = false).
Proof.
  intros eoas_id clusters_id.
  assert (Hkeys : ∀ issued, issued `prefix_of` [eoas_id; clusters_id] →
            Forall (λ d, names_key (op_table d) (op_column d) = true) issued).
  { intros issued [rest Hrest].
    assert (Hall : Forall (λ d, names_key (op_table d) (op_column d) = true)
                     [eoas_id; clusters_id])
      by (repeat constructor).
    rewrite Hrest in Hall. apply Forall_app in Hall as [Hall _]. exact Hall. }
  assert (Hrest : ∀ issued, issued `prefix_of` [eoas_id; clusters_id] →
            (∀ t c, alters issued t c = true → names_key t c = true) ∧
            (∀ s r, r ∈ cross_references s →
                    alters issued r.2.1 r.2.2 = true →
                    names_key r.1.1 r.1.2 = false →
                    carries_references issued s = false)).
  { intros issued Hpre. apply Hkeys in Hpre. split.
    - intros t c. apply alters_names_key. exact Hpre.
    - intros s r Hin Hkey Hnot.
      apply (carries_references_false _ _ r Hin Hkey).
      apply not_true_is_false. intros Href.
      apply (alters_names_key _ _ _ Hpre) in Href. congruence. }
  pose proof (upgrade_run engine accepted) as Hrun. cbn zeta in Hrun.
  fold eoas_id clusters_id in Hrun. rewrite Hrun.
  destruct (engine accepted eoas_id) as [e|].
  - exists []. split; [reflexivity |].
    split; [simpl; rewrite app_nil_r; reflexivity |].
    split; [apply prefix_nil |].
    split; [split; discriminate |]. apply (Hrest []), prefix_nil.
  - destruct (engine (accepted ++ [eoas_id])%list clusters_id) as [e|].
    + assert (Hpre : [eoas_id] `prefix_of` [eoas_id; clusters_id])
        by (exists [clusters_id]; reflexivity).
      exists [eoas_id]. split; [reflexivity |].
      split; [reflexivity |]. split; [exact Hpre |].
      split; [split; discriminate |]. apply (Hrest [eoas_id]), Hpre.
    + exists [eoas_id; clusters_id]. split; [reflexivity |].
      split; [reflexivity |]. split; [reflexivity |].
      split; [split; reflexivity |].
      apply (Hrest [eoas_id; clusters_id]). reflexivity.
Qed.

End MigrationFacts.

(** C9, as stated, fails.  On the two tables with string keys the EOA rows
    refer to the cluster they belong to.  A database that accepts both
    directives has been told to alter the key [suspicious_clusters.id] and
    has been told nothing about the reference to it; and whatever the
    database accepts, the upgrade hands it no directive for the
    reference. *)
Lemma upgrade_skips_cluster_reference :
  (("eoas", "cluster_id"), ("suspicious_clusters", "id"))
    ∈ Migration.cross_references Migration.string_keyed ∧
  (Migration.upgrade Migration.accepting []).2 = Ok tt ∧
  Migration.alters (Migration.upgrade Migration.accepting []).1
    "suspicious_clusters" "id" = true ∧
  Migration.carries_references (Migration.upgrade Migration.accepting []).1
    Migration.string_keyed = false ∧
  (∀ engine,
     Migration.alters (Migration.upgrade engine []).1 "eoas" "cluster_id"
       = false).
Proof.
  split; [vm_compute; apply list_elem_of_here |].
  split; [reflexivity |]. split; [reflexivity |]. split; [reflexivity |].
  intros engine. unfold Migration.upgrade, Migration.alter_column.
  destruct (engine [] _) as [e|]; [reflexivity |].
  destruct (engine _ _) as [e|]; reflexivity.
Qed.

Lemma upgrade_alters_keys_only_witness :
  ∃ issued,
    (Migration.upgrade Migration.accepting []).1 = ([] ++ issued)%list ∧
    issued `prefix_of`
      [Migration.mkAlterColumn "eoas" "id" (Migration.VARCHAR 36)
         Migration.Integer false true;
       Migration.mkAlterColumn "suspicious_clusters" "id"
         (Migration.VARCHAR 36) Migration.Integer false true] ∧
    Migration.carries_references issued Migration.string_keyed = false.
Proof.
  destruct (upgrade_alters_keys_only Migration.accepting [])
    as (issued & _ & H1 & H2 & H3 & _ & H5).
  exists issued. split; [exact H1 |]. split; [exact H2 |].
  apply (H5 Migration.string_keyed
           (("eoas", "cluster_id"), ("suspicious_clusters", "id"))).
  - vm_compute. apply list_elem_of_here.
  - rewrite (proj1 H3 eq_refl). reflexivity.
  - reflexivity.
Defined.

(** ** The scenario of the specification *)

Section Scenario.

Import Demo.

Lemma add_node_edges n g : edges (add_node n g) = edges g.
Proof. unfold add_node. case_bool_decide; reflexivity. Qed.

Lemma add_weighted_edge_keeps e a g e' :
  e' ∈ edge_keys g → e' ∈ edge_keys (add_weighted_edge e a g).
Proof.
  unfold add_weighted_edge, edge_keys. intros H.
  rewrite <- (add_node_edges e.1 g), <- (add_node_edges e.2 (add_node e.1 g)) in H.
  case_bool_decide; simpl.
  - rewrite <- list_fmap_compose.
    apply list_elem_of_fmap in H as ([k d] & -> & H).
    apply list_elem_of_fmap. exists (k, d). split; [| exact H].
    unfold compose. simpl. case_bool_decide; reflexivity.
  - rewrite fmap_app. apply elem_of_app. left. exact H.
Qed.

Lemma add_weighted_edge_adds e a g : e ∈ edge_keys (add_weighted_edge e a g).
Proof.
  destruct (decide (e ∈ edge_keys g)) as [Hin | Hout].
  - apply add_weighted_edge_keeps. exact Hin.
  - unfold add_weighted_edge. rewrite bool_decide_eq_false_2.
    + unfold edge_keys. simpl. rewrite fmap_app. apply elem_of_app. right.
      apply list_elem_of_here.
    + unfold edge_keys. rewrite !add_node_edges. exact Hout.
Qed.

Lemma graph_builder_adds ts : ∀ g e,
  e ∈ edge_keys g ∨ e ∈ transfer_edge <$> ts →
  e ∈ edge_keys (foldl (λ g t, add_weighted_edge (transfer_edge t) (amount t) g) g ts).
Proof.
  induction ts as [| t ts IH]; intros g e [H | H]; simpl.
  - exact H.
  - inversion H.
  - apply IH. left. apply add_weighted_edge_keeps. exact H.
  - apply IH. rewrite fmap_cons in H. apply elem_of_cons in H as [-> | H].
    + left. apply add_weighted_edge_adds.
    + right. exact H.
Qed.

(** The stand-in for the builder meets the contract. *)
Lemma graph_builder_contract : GraphBuilder_contract collaborators.
Proof.
  split; simpl.
  - intros ts g g' es [= _ <-] e. reflexivity.
  - intros ts g g' es [= <- <-] e He. apply graph_builder_adds. right. exact He.
  - intros ts g g' r [= <- _]. reflexivity.
  - intros g g' r [= <- _]. reflexivity.
Qed.

Lemma inserter_appends : insert_appends collaborators.
Proof.
  intros ev d d'. simpl. unfold inserter. case_bool_decide; [discriminate |].
  intros [= <-] t Ht. simpl. apply elem_of_app. left. exact Ht.
Qed.

Lemma no_eviction_deletes : eviction_deletes collaborators.
Proof. intros ts ts' r. simpl. intros [= <- _] t Ht. exact Ht. Qed.

(** The same holds whatever the final merger, the writer of the cluster
    tables and the evictor are. *)
Lemma graph_builder_contract_with merge to_database shed :
  GraphBuilder_contract (collaborators_with merge to_database shed).
Proof.
  split; simpl.
  - intros ts g g' es [= _ <-] e. reflexivity.
  - intros ts g g' es [= <- <-] e He. apply graph_builder_adds. right. exact He.
  - intros ts g g' r [= <- _]. reflexivity.
  - intros g g' r [= <- _]. reflexivity.
Qed.

Lemma inserter_appends_with merge to_database shed :
  insert_appends (collaborators_with merge to_database shed).
Proof.
  intros ev d d'. simpl. unfold inserter. case_bool_decide; [discriminate |].
  intros [= <-] t Ht. simpl. apply elem_of_app. left. exact Ht.
Qed.

Lemma failing_eviction_deletes : eviction_deletes collaborators_eviction_fails.
Proof. intros ts ts' r. simpl. intros [= <- _] t Ht. exact Ht. Qed.

Lemma start_initial : initial_world start.
Proof. repeat split. Qed.

Lemma after_two_reachable : reachable collaborators after_two.
Proof. apply reachable_run, reachable_start, start_initial. Qed.

Lemma after_five_reachable : reachable collaborators after_five.
Proof.
  apply reachable_handle_each, reachable_handled, after_two_reachable.
Qed.

Lemma locked_out_reachable : reachable collaborators_database_locked locked_out.
Proof.
  assert (E1 : run collaborators_database_locked [ev1; ev2] start = after_two)
    by (vm_compute; reflexivity).
  assert (E2 : (handle_transaction_async collaborators_database_locked ev3
                  after_two).1 = locked_out)
    by (vm_compute; reflexivity).
  rewrite <- E2, <- E1.
  apply reachable_handled, reachable_run, reachable_start, start_initial.
Qed.

End Scenario.

(** C1, as stated, fails.  In the scenario the third event triggers a
    flush in which [write_graph_to_database] raises after the final graph
    has been saved.  The caller gets the exception, neither the findings
    nor an empty sequence; the file of the final graph, absent before, now
    holds the graph of this batch; no transfer of the batch is marked. *)
Lemma failed_batch_leaves_final_graph :
  (handle_transaction_async Demo.collaborators_database_locked Demo.ev3
     Demo.after_two).2 = Raise Demo.locked ∧
  final_graph_file Demo.after_two = None ∧
  final_graph_file
    (handle_transaction_async Demo.collaborators_database_locked Demo.ev3
       Demo.after_two).1 = Some Demo.communities ∧
  unprocessed
    (transfers
       (db (handle_transaction_async Demo.collaborators_database_locked
              Demo.ev3 Demo.after_two).1)) = Demo.batch3.
Proof. repeat split; vm_compute; reflexivity. Qed.

Lemma failed_batch_reaches_caller_witness :
  handle_transaction_async Demo.collaborators_database_locked Demo.ev3
    Demo.after_two = (Demo.locked_out, Raise Demo.locked) ∧
  G2 Demo.locked_out = G2 Demo.after_two ∧
  transaction_counter Demo.locked_out = transaction_counter Demo.after_two + 1 ∧
  transfers (db Demo.locked_out) =
    transfers (db (at_flush Demo.collaborators_database_locked Demo.ev3
                     Demo.after_two)).
Proof.
  destruct (failed_batch_reaches_caller Demo.collaborators_database_locked
              Demo.ev3 Demo.after_two Demo.locked_out Demo.locked)
    as (H1 & H2 & H3 & H4 & _).
  - vm_compute. reflexivity.
  - vm_compute. discriminate.
  - vm_compute. reflexivity.
  - exact (conj H1 (conj H2 (conj H3 H4))).
Defined.

(** C3, as stated, fails.  In the scenario, with an eviction that raises,
    the pipeline of the third event returns and marks the batch, and yet the
    handler raises the exception of the eviction and the counter stays at
    three: the failure of the eviction is fatal to the event. *)
Lemma eviction_failure_is_fatal :
  is_ok
    (process_transactions Demo.collaborators_eviction_fails
       (at_flush Demo.collaborators_eviction_fails Demo.ev3 Demo.after_two)).2
    = true ∧
  (handle_transaction_async Demo.collaborators_eviction_fails Demo.ev3
     Demo.after_two).2 = Raise Demo.locked ∧
  transaction_counter
    (handle_transaction_async Demo.collaborators_eviction_fails Demo.ev3
       Demo.after_two).1 = 3.
Proof. repeat split; vm_compute; reflexivity. Qed.

Lemma counter_reset_only_after_full_flush_witness :
  (handle_transaction_async Demo.collaborators Demo.ev3 Demo.after_two).2
    = Ok Demo.scenario_findings ∧
  transaction_counter
    (handle_transaction_async Demo.collaborators Demo.ev3 Demo.after_two).1 = 0.
Proof.
  pose proof (counter_reset_only_after_full_flush Demo.collaborators Demo.ev3
                Demo.after_two) as H.
  assert (Hrun : (process_transactions Demo.collaborators
                    (at_flush Demo.collaborators Demo.ev3 Demo.after_two)).2
                 = Ok Demo.scenario_findings) by (vm_compute; reflexivity).
  destruct (process_transactions Demo.collaborators
              (at_flush Demo.collaborators Demo.ev3 Demo.after_two))
    as [w1 [fs|e]]; simpl in Hrun; [| discriminate].
  injection Hrun as ->.
  assert (Hev : is_ok (evicting Demo.collaborators w1).2 = true) by reflexivity.
  destruct (evicting Demo.collaborators w1) as [w2 [[]|e]]; [| discriminate].
  apply H.
  - vm_compute. reflexivity.
  - vm_compute. discriminate.
Defined.

(** C4, as stated, fails.  In the scenario, with an eviction that raises,
    the flush of the third event runs the pipeline to its end: the findings
    are returned and every transfer of the batch is marked.  The counter is
    three all the same, and stays three when the handler has raised. *)
Lemma marked_batch_counter_not_reset :
  process_transactions Demo.collaborators_eviction_fails
    (at_flush Demo.collaborators_eviction_fails Demo.ev3 Demo.after_two)
    = (Demo.persisted_unevicted, Ok Demo.scenario_findings) ∧
  transfers (db Demo.persisted_unevicted) = set_processed <$> Demo.batch3 ∧
  transaction_counter Demo.persisted_unevicted = 3 ∧
  handle_transaction_async Demo.collaborators_eviction_fails Demo.ev3
    Demo.after_two = (Demo.persisted_unevicted, Raise Demo.locked).
Proof. repeat apply conj; vm_compute; reflexivity. Qed.

Lemma flush_marks_batch_and_resets_counter_witness :
  (unprocessed (transfers (db Demo.persisted)) = [] ∧
   match evicting Demo.collaborators Demo.persisted with
   | (w2, Ok _) =>
       handle_transaction_async Demo.collaborators Demo.ev3 Demo.after_two =
         (printed (Line "ALL COMPLETE") (set_transaction_counter 0 w2),
          Ok Demo.scenario_findings) ∧
       transaction_counter
         (handle_transaction_async Demo.collaborators Demo.ev3
            Demo.after_two).1 = 0
   | (w2, Raise e) =>
       handle_transaction_async Demo.collaborators Demo.ev3 Demo.after_two =
         (w2, Raise e) ∧
       transaction_counter
         (handle_transaction_async Demo.collaborators Demo.ev3
            Demo.after_two).1 = transaction_counter Demo.after_two + 1
   end) ∧
  (unprocessed (transfers (db Demo.persisted_unevicted)) = [] ∧
   match evicting Demo.collaborators_eviction_fails Demo.persisted_unevicted with
   | (w2, Ok _) =>
       handle_transaction_async Demo.collaborators_eviction_fails Demo.ev3
         Demo.after_two =
         (printed (Line "ALL COMPLETE") (set_transaction_counter 0 w2),
          Ok Demo.scenario_findings) ∧
       transaction_counter
         (handle_transaction_async Demo.collaborators_eviction_fails Demo.ev3
            Demo.after_two).1 = 0
   | (w2, Raise e) =>
       handle_transaction_async Demo.collaborators_eviction_fails Demo.ev3
         Demo.after_two = (w2, Raise e) ∧
       transaction_counter
         (handle_transaction_async Demo.collaborators_eviction_fails Demo.ev3
            Demo.after_two).1 = transaction_counter Demo.after_two + 1
   end).
Proof.
  split.
  - destruct (flush_marks_batch_and_resets_counter Demo.collaborators Demo.ev3
                Demo.after_two Demo.persisted Demo.scenario_findings)
      as (_ & H2 & _ & H4).
    + exact no_eviction_deletes.
    + vm_compute. reflexivity.
    + vm_compute. discriminate.
    + vm_compute. reflexivity.
    + exact (conj H2 H4).
  - destruct (flush_marks_batch_and_resets_counter
                Demo.collaborators_eviction_fails Demo.ev3 Demo.after_two
                Demo.persisted_unevicted Demo.scenario_findings)
      as (_ & H2 & _ & H4).
    + exact failing_eviction_deletes.
    + vm_compute. reflexivity.
    + vm_compute. discriminate.
    + vm_compute. reflexivity.
    + exact (conj H2 H4).
Defined.

Lemma insert_failure_contained_witness :
  insert_event Demo.collaborators Demo.ev_bad
    (printed (Line "applying initial heuristics") Demo.start) =
    (printed (LineExn "Unexpected error occurred: " Demo.refused)
       (printed (Line "applying initial heuristics") Demo.start), Ok tt) ∧
  handle_transaction_async Demo.collaborators Demo.ev_bad Demo.start =
    count_and_trigger Demo.collaborators Demo.ev_bad []
      (printed (LineExn "Unexpected error occurred: " Demo.refused)
         (printed (Line "applying initial heuristics") Demo.start)).
Proof.
  destruct (insert_failure_contained Demo.collaborators Demo.ev_bad Demo.start
              Demo.refused) as (H1 & _ & H2 & _).
  - vm_compute. reflexivity.
  - left. vm_compute. reflexivity.
  - exact (conj H1 H2).
Defined.

Lemma failed_insert_is_counted_witness :
  transaction_counter (at_threshold Demo.collaborators Demo.ev_bad Demo.start)
    = transaction_counter Demo.start + 1 ∧
  db (at_threshold Demo.collaborators Demo.ev_bad Demo.start) = db Demo.start ∧
  len (transfers (db (at_threshold Demo.collaborators Demo.ev_bad Demo.start)))
      - len (transfers (db Demo.start)) <
    transaction_counter (at_threshold Demo.collaborators Demo.ev_bad Demo.start)
      - transaction_counter Demo.start.
Proof.
  destruct (failed_insert_is_counted Demo.collaborators Demo.ev_bad Demo.start
              Demo.refused) as (H1 & H2 & H3 & _).
  - vm_compute. reflexivity.
  - left. vm_compute. reflexivity.
  - exact (conj H1 (conj H2 H3)).
Defined.

(** C6, as stated, fails.  A node of the final graph has a list and a
    dictionary among its attributes.  The loops return: the list has become
    its JSON text, the dictionary is still a dictionary, and the graph that
    goes on to be saved has an attribute that is not a scalar. *)
Lemma dictionary_attribute_not_converted :
  convert_attributes Demo.profiled =
    Ok (mkGraph [("A", [("members", VStr ("[" ++ json_string "A" ++ "]"));
                        ("profile", VDict [("degree", VInt 2)])])] []) ∧
  (∀ g, convert_attributes Demo.profiled = Ok g → all_scalar g = false).
Proof.
  split; [vm_compute; reflexivity |].
  intros g. vm_compute. intros [= <-]. reflexivity.
Qed.

Lemma final_graph_conversion_witness :
  match convert_attributes Demo.tagged with
  | Ok converted =>
      process_transactions Demo.collaborators_tagging
        (at_flush Demo.collaborators_tagging Demo.ev3 Demo.after_two) =
        persisting Demo.collaborators_tagging Demo.batch3 converted Demo.merged ∧
      graph_converted Demo.tagged converted ∧
      all_scalar converted = forallb convertible (attribute_values Demo.tagged)
  | Raise e =>
      process_transactions Demo.collaborators_tagging
        (at_flush Demo.collaborators_tagging Demo.ev3 Demo.after_two) =
        (Demo.merged, Raise e) ∧
      final_graph_file Demo.merged =
        final_graph_file
          (at_flush Demo.collaborators_tagging Demo.ev3 Demo.after_two) ∧
      db Demo.merged =
        db (at_flush Demo.collaborators_tagging Demo.ev3 Demo.after_two) ∧
      ∃ l, VList l ∈ attribute_values Demo.tagged ∧
           json_dumps (VList l) = Raise e
  end.
Proof.
  apply (final_graph_conversion Demo.collaborators_tagging
           (at_flush Demo.collaborators_tagging Demo.ev3 Demo.after_two)
           Demo.merged Demo.batch3 Demo.tagged).
  vm_compute. reflexivity.
Defined.

(** C7, as stated, fails.  The first batch of the scenario gets as far as
    the final merge, where the flag is cleared, and then fails in the
    conversion of attributes: no final graph is saved.  The batch that the
    next event triggers is not the first one; its analysis returns, and
    there is no persisted final graph for its merge to start from: the
    attempt to load one raises, and so does the handler. *)
Lemma failed_first_batch_leaves_no_final_graph :
  (handle_transaction_async Demo.collaborators_decimal Demo.ev3
     Demo.after_two).2
    = Raise (TypeError "Object of type Decimal is not JSON serializable") ∧
  is_initial_batch Demo.after_two = true ∧
  is_initial_batch Demo.not_encoded = false ∧
  final_graph_file Demo.not_encoded = None ∧
  is_ok (analysis Demo.collaborators_decimal
           (at_flush Demo.collaborators_decimal Demo.ev4 Demo.not_encoded)).2
    = true ∧
  (handle_transaction_async Demo.collaborators_decimal Demo.ev4
     Demo.not_encoded).2 = Raise (Error "No such file or directory") ∧
  final_graph_file
    (handle_transaction_async Demo.collaborators_decimal Demo.ev4
       Demo.not_encoded).1 = None.
Proof. repeat apply conj; vm_compute; reflexivity. Qed.

Lemma final_merge_starts_from_witness :
  (is_initial_batch (at_flush Demo.collaborators Demo.ev3 Demo.after_two)
     = true ∧
   process_transactions Demo.collaborators
     (at_flush Demo.collaborators Demo.ev3 Demo.after_two) =
     (if is_initial_batch (at_flush Demo.collaborators Demo.ev3 Demo.after_two)
      then
        match merge_final_graphs Demo.collaborators
                (AnalyzedGraph Demo.communities) empty_graph with
        | Ok final_graph =>
            after_final_merge Demo.collaborators Demo.batch3 final_graph
              (set_is_initial_batch false Demo.analyzed)
        | Raise e => (set_is_initial_batch false Demo.analyzed, Raise e)
        end
      else
        match load_graph Demo.collaborators
                (final_graph_file
                   (at_flush Demo.collaborators Demo.ev3 Demo.after_two)) with
        | Ok previous =>
            match merge_final_graphs Demo.collaborators
                    (AnalyzedGraph Demo.communities) previous with
            | Ok final_graph =>
                after_final_merge Demo.collaborators Demo.batch3 final_graph
                  Demo.analyzed
            | Raise e => (Demo.analyzed, Raise e)
            end
        | Raise e => (Demo.analyzed, Raise e)
        end) ∧
   is_initial_batch
     (process_transactions Demo.collaborators
        (at_flush Demo.collaborators Demo.ev3 Demo.after_two)).1 = false) ∧
  (is_initial_batch (at_flush Demo.collaborators Demo.ev6 Demo.after_five)
     = false ∧
   load_graph Demo.collaborators
     (final_graph_file (at_flush Demo.collaborators Demo.ev6 Demo.after_five))
     = Ok Demo.communities ∧
   process_transactions Demo.collaborators
     (at_flush Demo.collaborators Demo.ev6 Demo.after_five) =
     (if is_initial_batch (at_flush Demo.collaborators Demo.ev6 Demo.after_five)
      then
        match merge_final_graphs Demo.collaborators
                (AnalyzedGraph Demo.second_communities) empty_graph with
        | Ok final_graph =>
            after_final_merge Demo.collaborators Demo.batch6 final_graph
              (set_is_initial_batch false Demo.analyzed_again)
        | Raise e => (set_is_initial_batch false Demo.analyzed_again, Raise e)
        end
      else
        match load_graph Demo.collaborators
                (final_graph_file
                   (at_flush Demo.collaborators Demo.ev6 Demo.after_five)) with
        | Ok previous =>
            match merge_final_graphs Demo.collaborators
                    (AnalyzedGraph Demo.second_communities) previous with
            | Ok final_graph =>
                after_final_merge Demo.collaborators Demo.batch6 final_graph
                  Demo.analyzed_again
            | Raise e => (Demo.analyzed_again, Raise e)
            end
        | Raise e => (Demo.analyzed_again, Raise e)
        end) ∧
   is_initial_batch
     (process_transactions Demo.collaborators
        (at_flush Demo.collaborators Demo.ev6 Demo.after_five)).1 = false).
Proof.
  split.
  - destruct (final_merge_starts_from Demo.collaborators
                (at_flush Demo.collaborators Demo.ev3 Demo.after_two)
                Demo.analyzed Demo.batch3 (AnalyzedGraph Demo.communities))
      as (H1 & H2 & _).
    + vm_compute. reflexivity.
    + split; [vm_compute; reflexivity |]. exact (conj H1 H2).
  - destruct (final_merge_starts_from Demo.collaborators
                (at_flush Demo.collaborators Demo.ev6 Demo.after_five)
                Demo.analyzed_again Demo.batch6
                (AnalyzedGraph Demo.second_communities))
      as (H1 & H2 & _).
    + vm_compute. reflexivity.
    + split; [vm_compute; reflexivity |]. split; [vm_compute; reflexivity |].
      exact (conj H1 H2).
Defined.

Lemma batch_subgraph_has_touched_edges_witness :
  (bool_decide (("A", "B") ∈ edge_keys (G1 Demo.built_again)) = true ∧
   (∀ e, e ∈ edge_keys Demo.second_subgraph ↔
         e ∈ transfer_edge <$> Demo.batch6) ∧
   process_transactions Demo.collaborators
     (at_flush Demo.collaborators Demo.ev6 Demo.after_five) =
     match run_algorithm Demo.collaborators Demo.second_subgraph with
     | Ok subgraph_partitions =>
         after_run_algorithm Demo.collaborators Demo.batch6
           Demo.second_subgraph subgraph_partitions Demo.built_again
     | Raise e => (Demo.built_again, Raise e)
     end) ∧
  (Demo.batch4 =
     unprocessed
       (transfers
          (db (at_flush Demo.collaborators_database_locked Demo.ev4
                 Demo.locked_out))) ∧
   (∀ e, e ∈ edge_keys Demo.retried_subgraph ↔
         e ∈ transfer_edge <$> Demo.batch4) ∧
   process_transactions Demo.collaborators_database_locked
     (at_flush Demo.collaborators_database_locked Demo.ev4 Demo.locked_out) =
     match run_algorithm Demo.collaborators_database_locked
             Demo.retried_subgraph with
     | Ok subgraph_partitions =>
         after_run_algorithm Demo.collaborators_database_locked Demo.batch4
           Demo.retried_subgraph subgraph_partitions Demo.built_retry
     | Raise e => (Demo.built_retry, Raise e)
     end).
Proof.
  split.
  - destruct (batch_subgraph_has_touched_edges Demo.collaborators Demo.ev6
                Demo.after_five Demo.built_again Demo.batch6
                Demo.second_subgraph) as (_ & _ & H3 & _ & H5).
    + exact graph_builder_contract.
    + exact inserter_appends.
    + exact after_five_reachable.
    + vm_compute. reflexivity.
    + split; [vm_compute; reflexivity |]. exact (conj H3 H5).
  - destruct (batch_subgraph_has_touched_edges
                Demo.collaborators_database_locked Demo.ev4 Demo.locked_out
                Demo.built_retry Demo.batch4 Demo.retried_subgraph)
      as (H1 & _ & H3 & _ & H5).
    + apply graph_builder_contract_with.
    + apply inserter_appends_with.
    + exact locked_out_reachable.
    + vm_compute. reflexivity.
    + exact (conj H1 (conj H3 H5)).
Defined.

Lemma durable_community_graph_untouched_witness :
  G2 (process_transactions Demo.collaborators
        (at_flush Demo.collaborators Demo.ev3 Demo.after_two)).1
    = G2 (at_flush Demo.collaborators Demo.ev3 Demo.after_two) ∧
  merging Demo.collaborators Demo.partitioned =
    (set_merged_G2_graph_file
       (write_graphml Demo.collaborators
          (G2 (at_flush Demo.collaborators Demo.ev3 Demo.after_two))
          (merged_G2_graph_file
             (at_flush Demo.collaborators Demo.ev3 Demo.after_two))).1
       Demo.partitioned,
     (write_graphml Demo.collaborators
        (G2 (at_flush Demo.collaborators Demo.ev3 Demo.after_two))
        (merged_G2_graph_file
           (at_flush Demo.collaborators Demo.ev3 Demo.after_two))).2) ∧
  process_transactions Demo.collaborators
    (at_flush Demo.collaborators Demo.ev3 Demo.after_two) =
    match (write_graphml Demo.collaborators
             (G2 (at_flush Demo.collaborators Demo.ev3 Demo.after_two))
             (merged_G2_graph_file
                (at_flush Demo.collaborators Demo.ev3 Demo.after_two))).2 with
    | Raise e =>
        (set_merged_G2_graph_file
           (write_graphml Demo.collaborators
              (G2 (at_flush Demo.collaborators Demo.ev3 Demo.after_two))
              (merged_G2_graph_file
                 (at_flush Demo.collaborators Demo.ev3 Demo.after_two))).1
           Demo.partitioned, Raise e)
    | Ok _ =>
        match analyze_communities Demo.collaborators
                (db (at_flush Demo.collaborators Demo.ev3 Demo.after_two))
                Demo.communities with
        | Raise e =>
            (printed (Line "analyzing clusters for suspicious activity")
               (set_merged_G2_graph_file
                  (write_graphml Demo.collaborators
                     (G2 (at_flush Demo.collaborators Demo.ev3 Demo.after_two))
                     (merged_G2_graph_file
                        (at_flush Demo.collaborators Demo.ev3
                           Demo.after_two))).1
                  Demo.partitioned), Raise e)
        | Ok r =>
            after_scoring Demo.collaborators Demo.batch3 (or_empty_list r)
              (printed (Line "analyzing clusters for suspicious activity")
                 (set_merged_G2_graph_file
                    (write_graphml Demo.collaborators
                       (G2 (at_flush Demo.collaborators Demo.ev3
                              Demo.after_two))
                       (merged_G2_graph_file
                          (at_flush Demo.collaborators Demo.ev3
                             Demo.after_two))).1
                    Demo.partitioned))
        end
    end.
Proof.
  destruct (durable_community_graph_untouched Demo.collaborators)
    as (_ & H2 & H3).
  destruct (H3 (at_flush Demo.collaborators Demo.ev3 Demo.after_two)
              Demo.built Demo.batch3 Demo.triangle Demo.partitioned
              Demo.communities) as (_ & H4 & H5).
  - vm_compute. reflexivity.
  - vm_compute. reflexivity.
  - exact (conj (H2 _) (conj H4 H5)).
Defined.

(** * Further properties *)

(** ** The migration, back again *)

Section MigrationBack.

Import Migration.

(** X21.  Whatever the database accepts, the downgrade issues at most two
    directives: the ones that undo the directives of the upgrade, in the
    opposite order, the second only when the database has accepted the
    first, and both exactly when the downgrade returns. *)
Theorem downgrade_undoes_upgrade_directives engine accepted :
  ∃ issued,
    (downgrade engine accepted).1 = (accepted ++ issued)%list ∧
    issued `prefix_of` reverse (inverse <$> (upgrade accepting []).1) ∧
    ((downgrade engine accepted).2 = Ok tt ↔
     issued = reverse (inverse <$> (upgrade accepting []).1)).
Proof.
  unfold downgrade, alter_column.
  destruct (engine accepted _) as [e|].
  - exists []. split; [simpl; rewrite app_nil_r; reflexivity |].
    split; [apply prefix_nil |]. split; discriminate.
  - destruct (engine _ _) as [e|].
    + eexists [_]. split; [reflexivity |].
      split; [eexists [_]; reflexivity |]. split; discriminate.
    + eexists [_; _]. split; [simpl; rewrite <- app_assoc; reflexivity |].
      split; [reflexivity |]. split; reflexivity.
Qed.

End MigrationBack.

(** ** More on the conversion of attributes *)

Section ConversionMore.

Lemma forallb_ext_in {A} (f g : A → bool) l :
  (∀ x, x ∈ l → f x = g x) → forallb f l = forallb g l.
Proof.
  induction l as [| x l IH]; intros H; [reflexivity |]. simpl.
  rewrite (H x) by apply list_elem_of_here.
  rewrite IH; [reflexivity |]. intros y Hy. apply H, list_elem_of_further, Hy.
Qed.

Lemma forallb_elem {A} (f : A → bool) l x :
  forallb f l = true → x ∈ l → f x = true.
Proof.
  intros H Hx. rewrite forallb_forall in H. apply H, list_elem_of_In, Hx.
Qed.

Lemma forallb_flat_map {A B} (f : B → bool) (g : A → list B) l :
  forallb f (flat_map g l) = forallb (λ x, forallb f (g x)) l.
Proof.
  induction l as [| x l IH]; [reflexivity |]. simpl.
  rewrite forallb_app, IH. reflexivity.
Qed.

Lemma forallb_snd {K} (f : PyValue → bool) (d : list (K * PyValue)) :
  forallb f d.*2 = forallb (λ kv, f kv.2) d.
Proof.
  induction d as [| kv d IH]; [reflexivity |].
  rewrite fmap_cons. simpl. rewrite IH. reflexivity.
Qed.

Lemma result_mapM_is_ok {A B} (f : A → result B) l :
  is_ok (result_mapM f l) = forallb (λ x, is_ok (f x)) l.
Proof.
  induction l as [| x l IH]; [reflexivity |]. simpl.
  destruct (f x) as [y|e]; simpl; [| reflexivity].
  rewrite <- IH. destruct (result_mapM f l); reflexivity.
Qed.

Lemma result_mapM_id {A} (f : A → result A) l :
  (∀ x, x ∈ l → f x = Ok x) → result_mapM f l = Ok l.
Proof.
  induction l as [| x l IH]; intros H; [reflexivity |]. simpl.
  rewrite (H x) by apply list_elem_of_here. simpl.
  rewrite IH; [reflexivity |]. intros y Hy. apply H, list_elem_of_further, Hy.
Qed.

Lemma convert_value_is_ok v :
  is_ok (convert_value v) = if isinstance_list v then is_ok (json_dumps v) else true.
Proof.
  destruct v; try reflexivity. unfold convert_value.
  destruct (json_dumps (VList l)); reflexivity.
Qed.

Lemma convert_value_plain v : plain v = true → convert_value v = Ok v.
Proof. destruct v; try reflexivity; discriminate. Qed.

Lemma convert_data_is_ok d :
  is_ok (convert_data d) =
    forallb (λ v, if isinstance_list v then is_ok (json_dumps v) else true) d.*2.
Proof.
  unfold convert_data. etrans; [apply result_mapM_is_ok |].
  rewrite forallb_snd. apply forallb_ext_in. intros [k v] _. simpl.
  rewrite <- convert_value_is_ok. destruct (convert_value v); reflexivity.
Qed.

Lemma convert_entries_is_ok {K} (es : list (K * Attrs)) :
  is_ok (result_mapM (λ n, d ← convert_data n.2; Ok (n.1, d)) es) =
    forallb (λ v, if isinstance_list v then is_ok (json_dumps v) else true)
      (flat_map (λ n, n.2.*2) es).
Proof.
  etrans; [apply result_mapM_is_ok |]. rewrite forallb_flat_map.
  apply forallb_ext_in. intros [k d] _. simpl.
  rewrite <- convert_data_is_ok. destruct (convert_data d); reflexivity.
Qed.

Lemma convert_data_plain d :
  forallb plain d.*2 = true → convert_data d = Ok d.
Proof.
  intros H. apply result_mapM_id. intros [k v] Hin. simpl.
  rewrite convert_value_plain; [reflexivity |].
  rewrite forallb_snd in H. exact (forallb_elem _ _ _ H Hin).
Qed.

Lemma convert_entries_plain {K} (es : list (K * Attrs)) :
  forallb plain (flat_map (λ n, n.2.*2) es) = true →
  result_mapM (λ n, d ← convert_data n.2; Ok (n.1, d)) es = Ok es.
Proof.
  intros H. apply result_mapM_id. intros [k d] Hin. simpl.
  rewrite convert_data_plain; [reflexivity |].
  rewrite forallb_flat_map in H. exact (forallb_elem _ _ _ H Hin).
Qed.

Lemma convert_attributes_plain g :
  forallb plain (attribute_values g) = true → convert_attributes g = Ok g.
Proof.
  unfold attribute_values. rewrite forallb_app. intros H.
  apply andb_true_iff in H as [Hn He]. unfold convert_attributes.
  rewrite (convert_entries_plain _ Hn), (convert_entries_plain _ He).
  destruct g; reflexivity.
Qed.

Lemma value_converted_plain v v' : value_converted v v' → plain v' = true.
Proof.
  destruct v; simpl; try (intros ->; reflexivity).
  intros (s & _ & ->). reflexivity.
Qed.

Lemma attrs_converted_plain d d' :
  attrs_converted d d' → forallb plain d'.*2 = true.
Proof.
  induction 1 as [| [k v] [k' v'] d d' [_ Hv] _ IH]; [reflexivity |].
  csimpl in *. rewrite IH, (value_converted_plain v v') by exact Hv.
  reflexivity.
Qed.

Lemma entries_converted_plain {K} (es es' : list (K * Attrs)) :
  Forall2 (λ n n', n'.1 = n.1 ∧ attrs_converted n.2 n'.2) es es' →
  forallb plain (flat_map (λ n, n.2.*2) es') = true.
Proof.
  induction 1 as [| [k d] [k' d'] es es' [_ Hd] _ IH]; [reflexivity |].
  csimpl in *. rewrite forallb_app, IH, (attrs_converted_plain d d') by exact Hd.
  reflexivity.
Qed.

Lemma convert_attributes_result_plain g g' :
  convert_attributes g = Ok g' → forallb plain (attribute_values g') = true.
Proof.
  intros H. apply convert_attributes_Ok in H as [Hn He].
  unfold attribute_values. rewrite forallb_app.
  rewrite (entries_converted_plain _ _ Hn), (entries_converted_plain _ _ He).
  reflexivity.
Qed.

(** X5.  The two loops return exactly when every attribute that is a list
    is one that [json.dumps] accepts; nothing else makes them raise. *)
Theorem conversion_returns_iff_lists_encode g :
  is_ok (convert_attributes g) =
    forallb (λ v, if isinstance_list v then is_ok (json_dumps v) else true)
      (attribute_values g).
Proof.
  unfold convert_attributes, attribute_values. rewrite forallb_app.
  rewrite <- !convert_entries_is_ok.
  destruct (result_mapM _ (nodes g)); simpl; [| reflexivity].
  destruct (result_mapM _ (edges g)); reflexivity.
Qed.

(** X6.  A graph none of whose attributes is a class or a list, one with
    scalar attributes only for instance, comes out of the loops as it went
    in. *)
Theorem conversion_leaves_plain_graph g :
  forallb (λ v, negb (isinstance_type v || isinstance_list v))
    (attribute_values g) = true →
  convert_attributes g = Ok g.
Proof. exact (convert_attributes_plain g). Qed.

(** X7.  In the graph that comes out of the loops no attribute is a class
    or a list any more, and running the loops on it again returns it
    unchanged. *)
Theorem conversion_is_idempotent g g' :
  convert_attributes g = Ok g' →
  forallb (λ v, negb (isinstance_type v || isinstance_list v))
    (attribute_values g') = true ∧
  convert_attributes g' = Ok g'.
Proof.
  intros H. apply convert_attributes_result_plain in H.
  split; [exact H | apply convert_attributes_plain; exact H].
Qed.

End ConversionMore.

Lemma conversion_leaves_plain_graph_witness :
  convert_attributes Demo.communities = Ok Demo.communities.
Proof. apply conversion_leaves_plain_graph. vm_compute. reflexivity. Defined.

Lemma conversion_is_idempotent_witness :
  ∃ g', convert_attributes Demo.tagged = Ok g' ∧ convert_attributes g' = Ok g'.
Proof.
  eexists. split; [vm_compute; reflexivity |].
  apply conversion_is_idempotent with (g := Demo.tagged).
  vm_compute. reflexivity.
Defined.

(** ** More on the handler and the pipeline *)

Section AgentMore.

Context {GraphML Partitions : Type} (C : Collaborators GraphML Partitions).
#[local] Abbreviation World := (World GraphML).

(** *** Initialising the graph *)

Lemma process_transactions_keeps_initialized :
  keeps is_graph_initialized (process_transactions C).
Proof.
  unfold process_transactions, building, partitioning, merging, scoring,
    final_merging, previous_final_graph, serializing, persisting.
  frame.
Qed.

Lemma handle_transaction_async_keeps_initialized ev :
  keeps is_graph_initialized (handle_transaction_async C ev).
Proof.
  pose proof process_transactions_keeps_initialized.
  unfold handle_transaction_async, insert_event, count_and_trigger, flush,
    evicting, update_transaction_counter, session_rollback.
  frame.
Qed.

(** X8.  Once the graph is initialised, [handle_transaction] is
    [handle_transaction_async]: [initialize_global_graph] is not called
    again, and the graph stays initialised whatever the event does. *)
Theorem initialized_graph_stays_initialized ev w :
  is_graph_initialized w = true →
  handle_transaction C ev w = handle_transaction_async C ev w ∧
  is_graph_initialized (handle_transaction C ev w).1 = true.
Proof.
  intros Hinit.
  assert (Heq : handle_transaction C ev w = handle_transaction_async C ev w).
  { unfold handle_transaction, ensure_graph_initialized, mbind, M_bind, gets,
      mret, M_ret. simpl. rewrite Hinit. reflexivity. }
  split; [exact Heq |].
  rewrite Heq, (handle_transaction_async_keeps_initialized ev). exact Hinit.
Qed.

(** X9.  When [initialize_global_graph] raises, the event is dropped: the
    handler raises the same exception, only the global graph and the console
    have changed, and the graph still counts as not initialised, so that the
    next event tries again. *)
Theorem failed_initialization_drops_event ev w g e :
  is_graph_initialized w = false →
  initialize_global_graph C (db w) (G1 w) = (g, Raise e) →
  handle_transaction C ev w =
    (set_G1 g (printed (Line "initializing graph") w), Raise e) ∧
  is_graph_initialized (handle_transaction C ev w).1 = false ∧
  transaction_counter (handle_transaction C ev w).1 = transaction_counter w ∧
  db (handle_transaction C ev w).1 = db w.
Proof.
  intros Hinit Hraise.
  assert (Heq : handle_transaction C ev w =
            (set_G1 g (printed (Line "initializing graph") w), Raise e)).
  { unfold handle_transaction, ensure_graph_initialized, on, mbind, M_bind,
      gets, print, modify, mret, M_ret. simpl. rewrite Hinit. simpl.
    fold (printed (Line "initializing graph") w).
    change (G1 (printed (Line "initializing graph") w)) with (G1 w).
    change (db (printed (Line "initializing graph") w)) with (db w).
    rewrite Hraise. reflexivity. }
  rewrite Heq. simpl. repeat split. exact Hinit.
Qed.

(** *** Events below the threshold *)

Lemma insert_event_keeps_graphs_and_files ev :
  keeps graphs_and_files (insert_event C ev).
Proof. unfold insert_event, session_rollback. frame. Qed.

Lemma at_threshold_graphs_and_files ev w :
  graphs_and_files (at_threshold C ev w) = graphs_and_files w.
Proof.
  unfold at_threshold.
  pose proof (insert_event_keeps_graphs_and_files ev
                (printed (Line "applying initial heuristics") w)) as H.
  exact H.
Qed.

Lemma below_threshold_step ev w :
  apply_initial_heuristics C (db w) ev = Ok true →
  transaction_counter w + 1 < N C →
  handle_transaction_async C ev w = (at_threshold C ev w, Ok []).
Proof.
  intros Hadm Hlt. rewrite handle_transaction_async_admitted by exact Hadm.
  rewrite bool_decide_eq_false_2 by lia. reflexivity.
Qed.

(** X10.  An admitted event that leaves the counter below [N] returns the
    empty list and touches nothing but the store, the counter and the
    console: the graphs, the pending edges, the flags and the four files are
    as they were, and the counter is one more. *)
Theorem event_below_threshold ev w :
  apply_initial_heuristics C (db w) ev = Ok true →
  transaction_counter w + 1 < N C →
  (handle_transaction_async C ev w).2 = Ok [] ∧
  transaction_counter (handle_transaction_async C ev w).1 =
    transaction_counter w + 1 ∧
  graphs_and_files (handle_transaction_async C ev w).1 = graphs_and_files w.
Proof.
  intros Hadm Hlt. rewrite below_threshold_step by assumption. simpl.
  split; [reflexivity |]. split.
  - apply at_threshold_counter.
  - apply at_threshold_graphs_and_files.
Qed.

(** X11.  Events that are always admitted count up one by one: as long as
    the count stays below [N], after any number of them the counter has
    grown by that number and the graphs, flags and files are untouched. *)
Theorem admitted_events_count_up evs : ∀ w,
  Forall (always_admitted C) evs →
  transaction_counter w + len evs < N C →
  transaction_counter (handle_each C evs w) = transaction_counter w + len evs ∧
  graphs_and_files (handle_each C evs w) = graphs_and_files w.
Proof.
  induction evs as [| ev evs IH]; intros w Hadm Hlt.
  - unfold len. simpl. split; [lia | reflexivity].
  - apply Forall_cons in Hadm as [Hev Hadm].
    unfold len in *. rewrite length_cons in *.
    simpl. rewrite (below_threshold_step ev w) by (auto; lia). simpl.
    destruct (IH (at_threshold C ev w) Hadm) as [Hc Hg].
    { rewrite at_threshold_counter. lia. }
    rewrite Hc, Hg, at_threshold_counter, at_threshold_graphs_and_files.
    split; [lia | reflexivity].
Qed.

(** X12.  The handler returns findings only from a flush: when it returns a
    non-empty list, the event was admitted, the counter had reached [N], the
    list is what the pipeline returned, and the counter is back at zero. *)
Theorem findings_come_from_a_flush ev w w' fs :
  handle_transaction_async C ev w = (w', Ok fs) →
  fs ≠ [] →
  apply_initial_heuristics C (db w) ev = Ok true ∧
  N C ≤ transaction_counter w + 1 ∧
  (process_transactions C (at_flush C ev w)).2 = Ok fs ∧
  transaction_counter w' = 0.
Proof.
  intros H Hne.
  destruct (apply_initial_heuristics C (db w) ev) as [[|]|e] eqn:Hadm.
  - rewrite handle_transaction_async_admitted in H by exact Hadm.
    case_bool_decide as HN; [| injection H as _ <-; contradiction].
    rewrite flush_outcome in H. fold (at_flush C ev w) in H.
    destruct (process_transactions C (at_flush C ev w)) as [w1 [fs1|e]];
      [| discriminate].
    destruct (evicting C w1) as [w2 [[]|e]]; [| discriminate].
    injection H as <- <-. repeat split. exact HN.
  - rewrite handle_transaction_async_rejected in H by exact Hadm.
    injection H as _ <-. contradiction.
  - rewrite (handle_transaction_async_heuristics_raise C ev w e) in H
      by exact Hadm.
    discriminate.
Qed.

(** *** The counter *)

Lemma handle_transaction_async_counter ev w :
  transaction_counter (handle_transaction_async C ev w).1 = transaction_counter w ∨
  transaction_counter (handle_transaction_async C ev w).1 = transaction_counter w + 1 ∨
  (transaction_counter (handle_transaction_async C ev w).1 = 0 ∧
   is_ok (handle_transaction_async C ev w).2 = true).
Proof.
  destruct (apply_initial_heuristics C (db w) ev) as [[|]|e] eqn:Hadm.
  - rewrite handle_transaction_async_admitted by exact Hadm.
    case_bool_decide as HN; simpl.
    + rewrite flush_outcome. fold (at_flush C ev w).
      pose proof (process_transactions_keeps_counter C (at_flush C ev w)) as Hc.
      rewrite at_flush_counter in Hc.
      destruct (process_transactions C (at_flush C ev w)) as [w1 [fs1|e]];
        simpl in *; [| right; left; exact Hc].
      pose proof (evicting_keeps_counter C w1) as Hc2.
      destruct (evicting C w1) as [w2 [[]|e]]; simpl in *.
      * right. right. split; reflexivity.
      * right. left. congruence.
    + right. left. apply at_threshold_counter.
  - rewrite handle_transaction_async_rejected by exact Hadm. left. reflexivity.
  - rewrite (handle_transaction_async_heuristics_raise C ev w e)
      by exact Hadm.
    left. reflexivity.
Qed.

Lemma ensure_graph_initialized_keeps_counter :
  keeps transaction_counter (ensure_graph_initialized C).
Proof. unfold ensure_graph_initialized. frame. Qed.

(** X13.  Handling an event leaves the counter as it was, one more, or at
    zero; a counter that is not negative stays so. *)
Theorem counter_stays_nonnegative ev w :
  0 ≤ transaction_counter w →
  0 ≤ transaction_counter (handle_transaction C ev w).1 ∧
  (transaction_counter (handle_transaction C ev w).1 = transaction_counter w ∨
   transaction_counter (handle_transaction C ev w).1 = transaction_counter w + 1 ∨
   transaction_counter (handle_transaction C ev w).1 = 0).
Proof.
  intros Hw.
  assert (Hcases :
    transaction_counter (handle_transaction C ev w).1 = transaction_counter w ∨
    transaction_counter (handle_transaction C ev w).1 = transaction_counter w + 1 ∨
    transaction_counter (handle_transaction C ev w).1 = 0).
  { unfold handle_transaction, mbind, M_bind.
    pose proof (ensure_graph_initialized_keeps_counter w) as Hk.
    destruct (ensure_graph_initialized C w) as [w1 [[]|e]]; simpl in Hk.
    - rewrite <- Hk.
      destruct (handle_transaction_async_counter ev w1) as [H | [H | [H _]]];
        auto.
    - left. exact Hk. }
  split; [| exact Hcases].
  destruct Hcases as [H | [H | H]]; rewrite H; lia.
Qed.

(** X14.  With a positive [N], an event that is handled without an
    exception from a counter below [N] leaves the counter below [N]. *)
Theorem counter_below_threshold_after_return ev w w' fs :
  0 < N C →
  transaction_counter w < N C →
  handle_transaction_async C ev w = (w', Ok fs) →
  transaction_counter w' < N C.
Proof.
  intros HN Hlt H.
  destruct (apply_initial_heuristics C (db w) ev) as [[|]|e] eqn:Hadm.
  - rewrite handle_transaction_async_admitted in H by exact Hadm.
    case_bool_decide as Hge.
    + rewrite flush_outcome in H. fold (at_flush C ev w) in H.
      destruct (process_transactions C (at_flush C ev w)) as [w1 [fs1|e]];
        [| discriminate].
      destruct (evicting C w1) as [w2 [[]|e]]; [| discriminate].
      injection H as <- _. simpl. exact HN.
    + injection H as <- _. rewrite at_threshold_counter. lia.
  - rewrite handle_transaction_async_rejected in H by exact Hadm.
    injection H as <- _. exact Hlt.
  - rewrite (handle_transaction_async_heuristics_raise C ev w e) in H
      by exact Hadm.
    discriminate.
Qed.

(** *** What a run of the pipeline does to the store and the flags *)

Lemma mark_processed_unprocessed ts :
  mark_processed (unprocessed ts) ts = set_processed <$> ts.
Proof.
  unfold mark_processed. apply list_fmap_ext. intros i t Ht.
  case_bool_decide as Hin; [reflexivity |].
  destruct (processed t) eqn:Hp.
  - destruct t; simpl in *. subst. reflexivity.
  - exfalso. apply Hin. apply list_elem_of_fmap. exists t.
    split; [reflexivity |]. apply list_elem_of_filter.
    split; [exact Hp | eapply list_elem_of_lookup_2; exact Ht].
Qed.

Lemma persisting_Ok_store batch final_graph w w' fs :
  persisting C batch final_graph w = (w', Ok fs) →
  contract_transactions (db w') = contract_transactions (db w).
Proof.
  unfold persisting, session_commit, on, mbind, M_bind, gets, lift, print,
    modify, mret, M_ret.
  destruct (save_graph C final_graph (final_graph_file w)) as [f [[]|e1]];
    simpl; [| intros [=]].
  destruct (write_graph_to_database C final_graph (clusters (db w)))
    as [c [fs1|e1]]; simpl; [| intros [=]].
  destruct (commit_error C _) as [e1|]; simpl.
  - intros [=].
  - intros [= <- _]. reflexivity.
Qed.

Lemma persisting_Raise_pending batch final_graph w w' e :
  persisting C batch final_graph w = (w', Raise e) →
  global_added_edges w' = global_added_edges w.
Proof.
  unfold persisting, session_commit, on, mbind, M_bind, gets, lift, print,
    modify, mret, M_ret.
  destruct (save_graph C final_graph (final_graph_file w)) as [f [[]|e1]];
    simpl; [| intros [= <- _]; reflexivity].
  destruct (write_graph_to_database C final_graph (clusters (db w)))
    as [c [fs|e1]]; simpl; [| intros [= <- _]; reflexivity].
  destruct (commit_error C _) as [e1|]; simpl.
  - intros [= <- _]. reflexivity.
  - intros [=].
Qed.

(** X15.  A run of the pipeline that returns has set the flag of every
    transfer in the store and changed nothing else about the rows: none is
    added, removed or moved, and the contract transactions are as they
    were.  No edge is pending any more and the first-batch flag is
    cleared. *)
Theorem pipeline_marks_every_row w w' fs :
  process_transactions C w = (w', Ok fs) →
  transfers (db w') = set_processed <$> transfers (db w) ∧
  contract_transactions (db w') = contract_transactions (db w) ∧
  global_added_edges w' = [] ∧
  is_initial_batch w' = false.
Proof.
  intros H.
  pose proof (process_transactions_Ok C w w' fs H) as [Ht Hnil].
  rewrite mark_processed_unprocessed in Ht.
  split; [exact Ht |]. split; [| split; [exact Hnil |]].
  - rewrite process_transactions_prepare in H.
    apply bind_Ok in H as (w1 & [batch fg] & Hp & H).
    pose proof (prepare_keeps_db C w) as Hdb. rewrite Hp in Hdb. simpl in Hdb.
    apply persisting_Ok_store in H. rewrite H, Hdb. reflexivity.
  - rewrite process_transactions_analysis in H.
    apply bind_Ok in H as (w1 & [batch analyzed] & _ & H).
    pose proof (after_analysis_flag_cleared C batch analyzed w1) as Hf.
    rewrite H in Hf. exact Hf.
Qed.

(** X16.  Once the analysis of a batch has returned, the first-batch flag
    is cleared whatever happens next, even when the merge, the conversion or
    the saving raises; when the analysis itself raises, the flag is as it
    was. *)
Theorem first_batch_flag_cleared_after_analysis w :
  match analysis C w with
  | (w1, Ok _) => is_initial_batch (process_transactions C w).1 = false
  | (w1, Raise e) =>
      process_transactions C w = (w1, Raise e) ∧
      is_initial_batch w1 = is_initial_batch w
  end.
Proof.
  rewrite (process_transactions_analysis C).
  pose proof (analysis_keeps_is_initial_batch C w) as Hk.
  destruct (analysis C w) as [w1 [[batch analyzed]|e]] eqn:Ha; simpl in Hk.
  - rewrite (bind_of_Ok _ _ _ _ _ Ha). apply after_analysis_flag_cleared.
  - rewrite (bind_of_Raise _ _ _ _ _ Ha). split; [reflexivity | exact Hk].
Qed.

Lemma keeps_outcome {X A} (f : World → X) (m : M GraphML A) w w' r :
  keeps f m → m w = (w', r) → f w' = f w.
Proof. intros Hk H. specialize (Hk w). rewrite H in Hk. exact Hk. Qed.

Lemma after_building_Raise_pending batch subgraph w w' e :
  (updated_subgraph ← partitioning C subgraph;
   merging C;;
   analyzed_subgraph ← scoring C updated_subgraph;
   final_graph ← final_merging C analyzed_subgraph;
   final_graph ← serializing final_graph;
   persisting C batch final_graph) w = (w', Raise e) →
  global_added_edges w' = global_added_edges w.
Proof.
  assert (K1 : ∀ sg, keeps global_added_edges (partitioning C sg))
    by (intros; unfold partitioning; frame).
  assert (K2 : keeps global_added_edges (merging C))
    by (unfold merging; frame).
  assert (K3 : ∀ up, keeps global_added_edges (scoring C up))
    by (intros; unfold scoring; frame).
  assert (K4 : ∀ a, keeps global_added_edges (final_merging C a))
    by (intros; unfold final_merging, previous_final_graph; frame).
  assert (K5 : ∀ fg, keeps (global_added_edges (GraphML := GraphML))
                       (serializing fg))
    by (intros; unfold serializing; frame).
  intros H.
  apply bind_Raise in H as [H | (w1 & up & H1 & H)];
    [exact (keeps_outcome _ _ _ _ _ (K1 _) H) |].
  rewrite <- (keeps_outcome _ _ _ _ _ (K1 _) H1).
  apply bind_Raise in H as [H | (w2 & [] & H2 & H)];
    [exact (keeps_outcome _ _ _ _ _ K2 H) |].
  rewrite <- (keeps_outcome _ _ _ _ _ K2 H2).
  apply bind_Raise in H as [H | (w3 & an & H3 & H)];
    [exact (keeps_outcome _ _ _ _ _ (K3 _) H) |].
  rewrite <- (keeps_outcome _ _ _ _ _ (K3 _) H3).
  apply bind_Raise in H as [H | (w4 & fg & H4 & H)];
    [exact (keeps_outcome _ _ _ _ _ (K4 _) H) |].
  rewrite <- (keeps_outcome _ _ _ _ _ (K4 _) H4).
  apply bind_Raise in H as [H | (w5 & fg' & H5 & H)];
    [exact (keeps_outcome _ _ _ _ _ (K5 _) H) |].
  rewrite <- (keeps_outcome _ _ _ _ _ (K5 _) H5).
  apply persisting_Raise_pending in H. exact H.
Qed.

(** Whatever Building does after the builder has returned, the edges the
    builder returned are appended to the pending edges. *)
Lemma building_appends w g es :
  add_transactions_to_graph C (unprocessed (transfers (db w))) (G1 w)
    = (g, Ok es) →
  global_added_edges (building C w).1 = (global_added_edges w ++ es)%list.
Proof.
  intros Hb.
  unfold building, on, mbind, M_bind, gets, lift, print, print_int, modify,
    mret, M_ret. simpl. rewrite Hb. simpl.
  destruct (adjust_edge_weights_and_variances C _ g) as [g1 [[]|e]];
    simpl; [| reflexivity].
  destruct (convert_decimal_to_float C g1) as [g2 [[]|e]];
    simpl; [| reflexivity].
  destruct (write_graphml C g2 (initial_global_graph_file w)) as [f [[]|e]];
    reflexivity.
Qed.

(** X17.  When a batch raises after the builder has returned, be it later
    in Building or in any later stage, the edges the builder returned stay
    appended to the pending edges and the transfers stay as they were.  A
    later run of the pipeline that finds these edges pending appends the
    edges the builder returns to them once more. *)
Theorem failed_batch_keeps_edges_pending w g es w' e :
  add_transactions_to_graph C (unprocessed (transfers (db w))) (G1 w)
    = (g, Ok es) →
  process_transactions C w = (w', Raise e) →
  global_added_edges w' = (global_added_edges w ++ es)%list ∧
  transfers (db w') = transfers (db w) ∧
  (∀ w'' g2 es2,
     global_added_edges w'' = global_added_edges w' →
     add_transactions_to_graph C (unprocessed (transfers (db w''))) (G1 w'')
       = (g2, Ok es2) →
     global_added_edges (building C w'').1 =
       (global_added_edges w ++ es ++ es2)%list).
Proof.
  intros Hb H.
  pose proof (process_transactions_Raise C w w' e H) as [Ht _].
  pose proof (building_appends w g es Hb) as Happ.
  assert (Hgae : global_added_edges w' = (global_added_edges w ++ es)%list).
  { unfold process_transactions in H.
    apply bind_Raise in H as [H | (w1 & [batch subgraph] & H1 & H)].
    - rewrite H in Happ. exact Happ.
    - rewrite H1 in Happ. simpl in Happ.
      apply after_building_Raise_pending in H. rewrite H. exact Happ. }
  split; [exact Hgae |]. split; [exact Ht |].
  intros w'' g2 es2 Hpend Hb2.
  rewrite (building_appends w'' g2 es2 Hb2), Hpend, Hgae, app_assoc.
  reflexivity.
Qed.

(** X18.  The insert of an event's row never raises and touches nothing
    but the store and the console; the store is either as it was or the
    state that [add_transaction_to_db] returned and the commit accepted. *)
Theorem insert_touches_store_only ev w :
  (insert_event C ev w).2 = Ok tt ∧
  graphs_and_files (insert_event C ev w).1 = graphs_and_files w ∧
  transaction_counter (insert_event C ev w).1 = transaction_counter w ∧
  (db (insert_event C ev w).1 = db w ∨
   (add_transaction_to_db C ev (db w) = Ok (db (insert_event C ev w).1) ∧
    commit_error C (db (insert_event C ev w).1) = None)).
Proof.
  split; [apply insert_event_returns |].
  split; [apply insert_event_keeps_graphs_and_files |].
  split; [apply insert_event_keeps_counter |].
  unfold insert_event, try_except, session_commit, session_rollback,
    mbind, M_bind, gets, lift, print, print_exn, modify, mret, M_ret.
  destruct (add_transaction_to_db C ev (db w)) as [pending|e]; simpl;
    [| left; reflexivity].
  destruct (commit_error C pending) eqn:Hc; simpl; [left; reflexivity |].
  right. split; [reflexivity | exact Hc].
Qed.

(** X19.  Scoring never hands an empty graph to the final merge: when it
    returns a graph, the analysis returned that graph and it has a node. *)
Theorem scoring_hands_over_no_empty_graph updated w w' g :
  scoring C updated w = (w', Ok (AnalyzedGraph g)) →
  nodes g ≠ [] ∧ analyze_communities C (db w) updated = Ok (Some g).
Proof.
  unfold scoring, mbind, M_bind, gets, lift, print, modify, mret, M_ret. simpl.
  destruct (analyze_communities C (db w) updated) as [[h|]|e]; simpl;
    [| intros [=] | intros [=]].
  destruct h as [ns es]. destruct ns as [| n ns]; simpl; [intros [=] |].
  intros [= _ <-]. split; [discriminate | reflexivity].
Qed.

Lemma filter_none {A} (P : A → Prop) `{!∀ x, Decision (P x)} (l : list A) :
  (∀ x, ¬ P x) → filter P l = [].
Proof.
  intros Hnone. induction l as [| x l IH]; [reflexivity |].
  rewrite (filter_cons P).
  destruct (decide (P x)) as [Hx | _]; [destruct (Hnone x Hx) | exact IH].
Qed.

(** X20.  A flush that finds no unprocessed transfer and no pending edge,
    as after events that stored no transfer, builds the empty subgraph,
    provided the builder returns no edge when it is given no transfer: the
    pipeline then runs on a graph without nodes or edges. *)
Theorem empty_batch_builds_empty_subgraph w w' batch subgraph :
  (∀ g es, add_transactions_to_graph C [] (G1 w) = (g, Ok es) → es = []) →
  global_added_edges w = [] →
  unprocessed (transfers (db w)) = [] →
  building C w = (w', Ok (batch, subgraph)) →
  batch = [] ∧ subgraph = mkGraph [] [] ∧ global_added_edges w' = [].
Proof.
  intros Hbuilder Hnil Hun Hb.
  apply building_Ok in Hb as (-> & -> & g & es & Hg & Hgae & _).
  rewrite Hun in *.
  assert (Hes : es = []) by (eapply Hbuilder; exact Hg).
  rewrite Hnil, Hes in Hgae. simpl in Hgae.
  split; [reflexivity |]. split; [| exact Hgae].
  rewrite Hgae. unfold edge_subgraph_digraph. f_equal.
  - rewrite (filter_none (λ n : Node * Attrs, n.1 ∈ endpoints []));
      [reflexivity |].
    intros n Hn. inversion Hn.
  - rewrite (filter_none (λ e : Edge * Attrs, e.1 ∈ []));
      [reflexivity |].
    intros e He. inversion He.
Qed.

End AgentMore.

Lemma initialized_graph_stays_initialized_witness :
  handle_transaction Demo.collaborators Demo.ev3 Demo.after_two =
    handle_transaction_async Demo.collaborators Demo.ev3 Demo.after_two ∧
  is_graph_initialized
    (handle_transaction Demo.collaborators Demo.ev3 Demo.after_two).1 = true.
Proof.
  apply initialized_graph_stays_initialized. vm_compute. reflexivity.
Defined.

Lemma failed_initialization_drops_event_witness :
  handle_transaction Demo.collaborators_no_graph Demo.ev1 Demo.start =
    (set_G1 (G1 Demo.start) (printed (Line "initializing graph") Demo.start),
     Raise Demo.locked) ∧
  is_graph_initialized
    (handle_transaction Demo.collaborators_no_graph Demo.ev1 Demo.start).1
    = false.
Proof.
  destruct (failed_initialization_drops_event Demo.collaborators_no_graph
              Demo.ev1 Demo.start (G1 Demo.start) Demo.locked)
    as (H1 & H2 & _).
  - reflexivity.
  - reflexivity.
  - exact (conj H1 H2).
Defined.

Lemma event_below_threshold_witness :
  (handle_transaction_async Demo.collaborators Demo.ev1 Demo.start).2 = Ok [] ∧
  transaction_counter
    (handle_transaction_async Demo.collaborators Demo.ev1 Demo.start).1 =
    transaction_counter Demo.start + 1 ∧
  graphs_and_files
    (handle_transaction_async Demo.collaborators Demo.ev1 Demo.start).1 =
    graphs_and_files Demo.start.
Proof.
  apply event_below_threshold.
  - vm_compute. reflexivity.
  - vm_compute. reflexivity.
Defined.

Lemma admitted_events_count_up_witness :
  transaction_counter
    (handle_each Demo.collaborators [Demo.ev1; Demo.ev2] Demo.start) =
    transaction_counter Demo.start + len [Demo.ev1; Demo.ev2] ∧
  graphs_and_files
    (handle_each Demo.collaborators [Demo.ev1; Demo.ev2] Demo.start) =
    graphs_and_files Demo.start.
Proof.
  apply admitted_events_count_up.
  - repeat constructor; intros d; reflexivity.
  - vm_compute. reflexivity.
Defined.

Lemma findings_come_from_a_flush_witness :
  apply_initial_heuristics Demo.collaborators (db Demo.after_two) Demo.ev3
    = Ok true ∧
  N Demo.collaborators ≤ transaction_counter Demo.after_two + 1 ∧
  (process_transactions Demo.collaborators
     (at_flush Demo.collaborators Demo.ev3 Demo.after_two)).2
    = Ok Demo.scenario_findings ∧
  transaction_counter Demo.flushed = 0.
Proof.
  apply (findings_come_from_a_flush Demo.collaborators Demo.ev3 Demo.after_two
           Demo.flushed Demo.scenario_findings).
  - vm_compute. reflexivity.
  - discriminate.
Defined.

Lemma counter_stays_nonnegative_witness :
  0 ≤ transaction_counter
        (handle_transaction Demo.collaborators Demo.ev3 Demo.after_two).1.
Proof.
  apply (counter_stays_nonnegative Demo.collaborators Demo.ev3 Demo.after_two).
  vm_compute. discriminate.
Defined.

Lemma counter_below_threshold_after_return_witness :
  transaction_counter
    (handle_transaction_async Demo.collaborators Demo.ev1 Demo.start).1 <
  N Demo.collaborators.
Proof.
  apply (counter_below_threshold_after_return Demo.collaborators Demo.ev1
           Demo.start _ []).
  - vm_compute. reflexivity.
  - vm_compute. reflexivity.
  - vm_compute. reflexivity.
Defined.

Lemma pipeline_marks_every_row_witness :
  transfers
    (db (process_transactions Demo.collaborators
           (at_flush Demo.collaborators Demo.ev3 Demo.after_two)).1) =
    set_processed <$>
      transfers (db (at_flush Demo.collaborators Demo.ev3 Demo.after_two)) ∧
  global_added_edges
    (process_transactions Demo.collaborators
       (at_flush Demo.collaborators Demo.ev3 Demo.after_two)).1 = [] ∧
  is_initial_batch
    (process_transactions Demo.collaborators
       (at_flush Demo.collaborators Demo.ev3 Demo.after_two)).1 = false.
Proof.
  destruct (pipeline_marks_every_row Demo.collaborators
              (at_flush Demo.collaborators Demo.ev3 Demo.after_two)
              (process_transactions Demo.collaborators
                 (at_flush Demo.collaborators Demo.ev3 Demo.after_two)).1
              Demo.scenario_findings) as (H1 & _ & H2 & H3).
  - vm_compute. reflexivity.
  - exact (conj H1 (conj H2 H3)).
Defined.

Lemma failed_batch_keeps_edges_pending_witness :
  (global_added_edges Demo.half_built =
     (global_added_edges
        (at_flush Demo.collaborators_no_variance Demo.ev3 Demo.after_two)
      ++ (transfer_edge <$> Demo.batch3))%list ∧
   transfers (db Demo.half_built) =
     transfers
       (db (at_flush Demo.collaborators_no_variance Demo.ev3 Demo.after_two))) ∧
  (global_added_edges Demo.locked_out =
     (global_added_edges
        (at_flush Demo.collaborators_database_locked Demo.ev3 Demo.after_two)
      ++ (transfer_edge <$> Demo.batch3))%list ∧
   transfers (db Demo.locked_out) =
     transfers
       (db (at_flush Demo.collaborators_database_locked Demo.ev3
              Demo.after_two))).
Proof.
  split.
  - destruct (failed_batch_keeps_edges_pending Demo.collaborators_no_variance
                (at_flush Demo.collaborators_no_variance Demo.ev3
                   Demo.after_two)
                (G1 Demo.built) (transfer_edge <$> Demo.batch3)
                Demo.half_built Demo.no_variance) as (H1 & H2 & _).
    + vm_compute. reflexivity.
    + vm_compute. reflexivity.
    + exact (conj H1 H2).
  - destruct (failed_batch_keeps_edges_pending
                Demo.collaborators_database_locked
                (at_flush Demo.collaborators_database_locked Demo.ev3
                   Demo.after_two)
                (G1 Demo.built) (transfer_edge <$> Demo.batch3)
                Demo.locked_out Demo.locked) as (H1 & H2 & _).
    + vm_compute. reflexivity.
    + vm_compute. reflexivity.
    + exact (conj H1 H2).
Defined.

Lemma scoring_hands_over_no_empty_graph_witness :
  nodes Demo.communities ≠ [] ∧
  analyze_communities Demo.collaborators (db Demo.start) Demo.communities =
    Ok (Some Demo.communities).
Proof.
  apply (scoring_hands_over_no_empty_graph Demo.collaborators Demo.communities
           Demo.start Demo.scored).
  vm_compute. reflexivity.
Defined.

Lemma empty_batch_builds_empty_subgraph_witness :
  ([] : list Transfer) = [] ∧ mkGraph [] [] = mkGraph [] [] ∧
  global_added_edges Demo.built_empty = [].
Proof.
  apply (empty_batch_builds_empty_subgraph Demo.collaborators Demo.start
           Demo.built_empty [] (mkGraph [] [])).
  - intros g es [= _ <-]. reflexivity.
  - reflexivity.
  - reflexivity.
  - vm_compute. reflexivity.
Defined.
